(** * Universal Ledger CLI (ulc): the record validator, the context compiler,
      the text formatter and the update, init and list commands of
      [bin/ulc.js], embedded as functions over JavaScript values.

    Conventions of the embedding.
    - A JavaScript string is the sequence of its code units; the model covers
      code units below 256, one [ascii] each.  In that range the characters
      removed by [String.prototype.trim] are TAB, LF, VT, FF, CR, SP and NBSP.
    - A number is an integer below 2^53 in magnitude (printed in decimal
      notation) or an infinity: [JSON.parse] reads a literal beyond the range
      of doubles, such as [1e999], as [Infinity], and [JSON.stringify] writes
      an infinity as [null].  Fractions are not modelled; the program only
      tests numbers for truthiness, interpolates them into text and writes
      them back.
    - An object is the list of its own properties.  The program reads and
      writes a fixed set of property names, none of which is inherited from
      [Object.prototype] or [Array.prototype].
    - An array carries its elements and the named properties assigned to it
      ([typeof [] === "object"], so the program may assign [notes] or
      [ask_when_uncertain] on an array found in a record).
    - [die] ends the process ([process.exit]); it is not an exception and no
      [catch] clause sees it. *)

From Stdlib Require Import String Ascii List ZArith Bool Lia DecimalString.
From Stdlib Require Import Permutation.
Import ListNotations.
Open Scope string_scope.
Set Warnings "-register-all".

(* ------------------------------------------------------------------ *)
(** ** JavaScript values and the primitives the program uses *)

Module Js.

Inductive number : Type :=
| Finite (z : Z)
| Infinite (negative : bool).

Inductive value : Type :=
| VUndef
| VNull
| VBool (b : bool)
| VNum (n : number)
| VStr (s : string)
| VArr (elems : list value) (props : list (string * value))
| VObj (props : list (string * value)).

(** Outcome of running a piece of the program: a normal result, an exception
    that a [try]/[catch] can intercept, or the end of the process by [die]. *)
Inductive outcome (A : Type) : Type :=
| Ret (a : A)
| Throw (e : string)
| Exit (msg : string).
Arguments Ret {A} a.
Arguments Throw {A} e.
Arguments Exit {A} msg.

Definition bind {A B : Type} (m : outcome A) (k : A -> outcome B) : outcome B :=
  match m with
  | Ret a => k a
  | Throw e => Throw e
  | Exit msg => Exit msg
  end.

(** [try { m } catch (e) { h e }] *)
Definition try_catch {A : Type} (m : outcome A) (h : string -> outcome A) : outcome A :=
  match m with
  | Throw e => h e
  | _ => m
  end.

Definition nl : string := String (ascii_of_nat 10) EmptyString.

(** The double-quote character. *)
Definition dq : string := String (ascii_of_nat 34) EmptyString.

Definition TypeError : string := "TypeError".

(** ToBoolean *)
Definition truthy (v : value) : bool :=
  match v with
  | VUndef | VNull => false
  | VBool b => b
  | VNum (Finite z) => negb (Z.eqb z 0)
  | VNum (Infinite _) => true
  | VStr s => negb (String.eqb s "")
  | VArr _ _ | VObj _ => true
  end.

(** [v == null] *)
Definition nullish (v : value) : bool :=
  match v with
  | VUndef | VNull => true
  | _ => false
  end.

(** [a ?? b] *)
Definition coalesce (a b : value) : value := if nullish a then b else a.

Definition isArray (v : value) : bool :=
  match v with VArr _ _ => true | _ => false end.

Definition isString (v : value) : bool :=
  match v with VStr _ => true | _ => false end.

Definition isBoolean (v : value) : bool :=
  match v with VBool _ => true | _ => false end.

(** [typeof v === "object"] (true of [null] too) *)
Definition typeofObject (v : value) : bool :=
  match v with VNull | VArr _ _ | VObj _ => true | _ => false end.

Fixpoint lookup (k : string) (ps : list (string * value)) : value :=
  match ps with
  | [] => VUndef
  | (k', x) :: ps' => if String.eqb k k' then x else lookup k ps'
  end.

Fixpoint has (k : string) (ps : list (string * value)) : bool :=
  match ps with
  | [] => false
  | (k', _) :: ps' => if String.eqb k k' then true else has k ps'
  end.

Fixpoint assign (k : string) (x : value) (ps : list (string * value))
  : list (string * value) :=
  match ps with
  | [] => [(k, x)]
  | (k', y) :: ps' =>
      if String.eqb k k' then (k', x) :: ps' else (k', y) :: assign k x ps'
  end.

(** [v?.[k]], and [v.k] on a [v] known not to be [null] or [undefined]. *)
Definition get (v : value) (k : string) : value :=
  match v with
  | VObj ps => lookup k ps
  | VArr _ ps => lookup k ps
  | _ => VUndef
  end.

(** [v.k = x] on an object or array [v]. *)
Definition set (v : value) (k : string) (x : value) : value :=
  match v with
  | VObj ps => VObj (assign k x ps)
  | VArr l ps => VArr l (assign k x ps)
  | _ => v
  end.

(** The elements of an array value. *)
Definition elems_of (v : value) : list value :=
  match v with VArr l _ => l | _ => [] end.

Definition decimal (n : Z) : string := NilZero.string_of_int (Z.to_int n).

(** ToString, as applied by template literals and [String(v)].  An object
    with an own [toString] property (never a function in parsed JSON) cannot
    be converted: a TypeError is thrown, here [None]. *)
Fixpoint toString (v : value) : option string :=
  match v with
  | VUndef => Some "undefined"
  | VNull => Some "null"
  | VBool true => Some "true"
  | VBool false => Some "false"
  | VNum (Finite z) => Some (decimal z)
  | VNum (Infinite false) => Some "Infinity"
  | VNum (Infinite true) => Some "-Infinity"
  | VStr s => Some s
  | VObj ps => if has "toString" ps then None else Some "[object Object]"
  | VArr l ps =>
      if has "toString" ps then None
      else if has "join" ps then Some "[object Array]"
      else
        (fix joined (l : list value) : option string :=
           match l with
           | [] => Some ""
           | x :: l' =>
               match (if nullish x then Some "" else toString x) with
               | None => None
               | Some s =>
                   match l' with
                   | [] => Some s
                   | _ :: _ =>
                       match joined l' with
                       | None => None
                       | Some t => Some (s ++ "," ++ t)
                       end
                   end
               end
           end) l
  end.

(** A template interpolation [`${v}`] inside a computation. *)
Definition interp (v : value) : outcome string :=
  match toString v with
  | Some s => Ret s
  | None => Throw TypeError
  end.

(** SameValueZero, as used by [Array.prototype.includes].  Objects and
    arrays compare by identity, and the embedding answers [false] for them:
    the values the program looks for are those of the command line, which
    [parseArgs] makes strings. *)
Definition sameNumber (x y : number) : bool :=
  match x, y with
  | Finite a, Finite b => Z.eqb a b
  | Infinite a, Infinite b => Bool.eqb a b
  | _, _ => false
  end.

Definition sameValueZero (a b : value) : bool :=
  match a, b with
  | VUndef, VUndef => true
  | VNull, VNull => true
  | VBool x, VBool y => Bool.eqb x y
  | VNum x, VNum y => sameNumber x y
  | VStr x, VStr y => String.eqb x y
  | _, _ => false
  end.

(** [l.includes(x)] *)
Definition includes (l : list value) (x : value) : bool :=
  existsb (fun y => sameValueZero y x) l.

Definition isWhiteSpace (c : ascii) : bool :=
  let n := nat_of_ascii c in
  ((9 <=? n) && (n <=? 13) || (n =? 32) || (n =? 160))%nat.

Fixpoint trimStart (s : string) : string :=
  match s with
  | EmptyString => EmptyString
  | String c s' => if isWhiteSpace c then trimStart s' else s
  end.

Fixpoint trimEnd (s : string) : string :=
  match s with
  | EmptyString => EmptyString
  | String c s' =>
      match trimEnd s' with
      | EmptyString => if isWhiteSpace c then EmptyString else String c EmptyString
      | t => String c t
      end
  end.

Definition trim (s : string) : string := trimEnd (trimStart s).

(** [s.trim()] is the empty string. *)
Definition blank (s : string) : bool := String.eqb (trim s) "".

Definition lowerChar (c : ascii) : ascii :=
  let n := nat_of_ascii c in
  if ((65 <=? n) && (n <=? 90)
      || (192 <=? n) && (n <=? 222) && negb (n =? 215))%nat
  then ascii_of_nat (n + 32) else c.

Fixpoint toLowerCase (s : string) : string :=
  match s with
  | EmptyString => EmptyString
  | String c s' => String (lowerChar c) (toLowerCase s')
  end.

(** Upper-casing of the letters a-z.  The program only asks whether the
    upper-cased text starts with, or equals, [TODO]; no other character
    upper-cases to one of the letters T, O, D. *)
Definition upperChar (c : ascii) : ascii :=
  let n := nat_of_ascii c in
  if ((97 <=? n) && (n <=? 122))%nat then ascii_of_nat (n - 32) else c.

Fixpoint toUpperCase (s : string) : string :=
  match s with
  | EmptyString => EmptyString
  | String c s' => String (upperChar c) (toUpperCase s')
  end.

Definition startsWith (p s : string) : bool := prefix p s.

(** [s.slice(2)] *)
Definition slice2 (s : string) : string :=
  match s with
  | String _ (String _ r) => r
  | _ => EmptyString
  end.

(** [JSON.parse(JSON.stringify(v))]: what a written value reads back as.
    Named properties of arrays are not serialised, [undefined] properties
    are omitted, [undefined] elements become [null], and an infinite number
    becomes [null] wherever it stands. *)
Fixpoint persist (v : value) : value :=
  match v with
  | VNum (Infinite _) => VNull
  | VArr l _ =>
      VArr (map (fun x => match x with VUndef => VNull | _ => persist x end) l) []
  | VObj ps =>
      VObj ((fix fields (ps : list (string * value)) : list (string * value) :=
               match ps with
               | [] => []
               | (k, VUndef) :: ps' => fields ps'
               | (k, x) :: ps' => (k, persist x) :: fields ps'
               end) ps)
  | _ => v
  end.

End Js.

Import Js.

Notation "x <- m ;; k" := (bind m (fun x => k))
  (at level 61, m at next level, right associativity).

(** [die(msg)]: print [ulc: msg] on the error stream and leave the process. *)
Definition die {A : Type} (msg : string) : outcome A := Exit msg.

Definition VERSION : string := "0.1.0".

(* ------------------------------------------------------------------ *)
(** ** Validator *)

Definition required : list string := ["lid"; "project"; "created_at"; "summary"].

(** [required.filter((k) => !rec?.[k])] *)
Definition missingFields (rec : value) : list string :=
  filter (fun k => negb (truthy (get rec k))) required.

(** [typeof v !== "string" || v.trim().length < 3] *)
Definition invalidLid (v : value) : bool :=
  match v with
  | VStr s => (String.length (trim s) <? 3)%nat
  | _ => true
  end.

(** [typeof v !== "string" || !v.trim()] *)
Definition invalidText (v : value) : bool :=
  match v with
  | VStr s => blank s
  | _ => true
  end.

Definition hardValidateLedgerRecord (rec : value) : outcome value :=
  let missing := missingFields rec in
  if negb (length missing =? 0)%nat then
    die ("ledger entry missing required field(s): " ++ String.concat ", " missing)
  else if invalidLid (get rec "lid") then
    die "ledger entry has invalid `lid`"
  else if invalidText (get rec "project") then
    die "ledger entry has invalid `project`"
  else if invalidText (get rec "summary") then
    die "ledger entry has invalid `summary`"
  else Ret rec.

(** [warnings.push(w)] when [c] holds *)
Definition warnIf (c : bool) (w : string) (warnings : list string) : list string :=
  if c then warnings ++ [w] else warnings.

Definition isTodoGoal (g : value) : bool :=
  match g with
  | VStr s => String.eqb (toUpperCase (trim s)) "TODO"
  | _ => false
  end.

Definition looksTodo (v : value) : bool :=
  match v with
  | VStr s => startsWith "TODO" (toUpperCase (trim s))
  | _ => false
  end.

Definition softValidateLedgerRecord (rec : value) : list string :=
  let warnings := [] in
  let warnings :=
    warnIf (negb (nullish (get rec "goals")) && negb (isArray (get rec "goals")))
      "`goals` should be an array of strings." warnings in
  let warnings :=
    warnIf (negb (nullish (get rec "constraints")) && negb (isArray (get rec "constraints")))
      "`constraints` should be an array of strings." warnings in
  let warnings :=
    warnIf (negb (nullish (get rec "style")) && negb (typeofObject (get rec "style")))
      "`style` should be an object." warnings in
  let warnings :=
    warnIf (negb (nullish (get (get rec "style") "ask_when_uncertain"))
            && negb (isBoolean (get (get rec "style") "ask_when_uncertain")))
      "`style.ask_when_uncertain` should be boolean." warnings in
  let warnings :=
    warnIf (negb (nullish (get rec "last_state")) && negb (typeofObject (get rec "last_state")))
      "`last_state` should be an object." warnings in
  let warnings :=
    warnIf (negb (nullish (get (get rec "last_state") "notes"))
            && negb (isArray (get (get rec "last_state") "notes")))
      "`last_state.notes` should be an array." warnings in
  let warnings :=
    warnIf (looksTodo (get rec "summary"))
      ("`summary` still looks like a TODO. Consider setting a real one (ulc update --summary "
       ++ dq ++ "..." ++ dq ++ ").")
      warnings in
  let warnings :=
    warnIf (isArray (get rec "goals") && existsb isTodoGoal (elems_of (get rec "goals")))
      "`goals` contains TODO placeholder(s). Consider setting real goals (ulc update --add-goal ... --remove-goal TODO)."
      warnings in
  warnings.

(* ------------------------------------------------------------------ *)
(** ** Compiler *)

Record Meta : Type := mkMeta {
  source : string;
  version : string;
  lid : value;
  created_at : value;
  project : value
}.

Record Style : Type := mkStyle {
  tone : value;
  format : value;
  ask_when_uncertain : value
}.

Record LastKnownState : Type := mkLastKnownState {
  as_of : value;
  notes : list value
}.

Record ContextPacket : Type := mkContextPacket {
  meta : Meta;
  summary : value;
  goals : list value;
  constraints : list value;
  style : Style;
  last_known_state : LastKnownState;
  instructions : list string
}.

Definition emptyObject : value := VObj [].

Definition fixedInstructions : list string :=
  [ "Treat this block as authoritative user-provided context.";
    "Do not assume any prior internal memory beyond this block.";
    "Ask for clarification if this block conflicts with current conversation state." ].

(** Reading a property of [null] or [undefined] throws. *)
Definition compileContext (rec : value) : outcome ContextPacket :=
  if nullish rec then Throw TypeError
  else
    let goals := if isArray (get rec "goals") then elems_of (get rec "goals") else [] in
    let constraints :=
      if isArray (get rec "constraints") then elems_of (get rec "constraints") else [] in
    let style := coalesce (get rec "style") emptyObject in
    let lastState := coalesce (get rec "last_state") emptyObject in
    let lastNotes :=
      if isArray (get lastState "notes") then elems_of (get lastState "notes") else [] in
    let asOf := coalesce (get lastState "as_of") (VStr "") in
    Ret {| meta := {| source := "Universal Ledger CLI";
                      version := VERSION;
                      lid := get rec "lid";
                      created_at := get rec "created_at";
                      project := get rec "project" |};
           summary := get rec "summary";
           goals := goals;
           constraints := constraints;
           style := {| tone := coalesce (get style "tone") (VStr "Precise, technical");
                       format := coalesce (get style "format") (VStr "Bullets preferred");
                       ask_when_uncertain :=
                         coalesce (get style "ask_when_uncertain") (VBool true) |};
           last_known_state := {| as_of := asOf; notes := lastNotes |};
           instructions := fixedInstructions |}.

(* ------------------------------------------------------------------ *)
(** ** Formatter *)

(** [lines.push(s)] *)
Definition push (lines : list string) (s : string) : list string := lines ++ [s].

(** [for (const x of xs) lines.push(`- ${x}`)] *)
Fixpoint pushBullets (lines : list string) (xs : list value) : outcome (list string) :=
  match xs with
  | [] => Ret lines
  | x :: xs' => s <- interp x ;; pushBullets (push lines ("- " ++ s)) xs'
  end.

Definition formatText (ctx : ContextPacket) : outcome string :=
  let lines := [] in
  let lines := push lines "[CONTEXT_BLOCK_START]" in
  let lines :=
    push lines ("Source: " ++ source (meta ctx) ++ " v" ++ version (meta ctx)) in
  s <- interp (lid (meta ctx)) ;;
  let lines := push lines ("Ledger ID: " ++ s) in
  s <- interp (project (meta ctx)) ;;
  let lines := push lines ("Project: " ++ s) in
  s <- interp (created_at (meta ctx)) ;;
  let lines := push lines ("Created: " ++ s) in
  let lines := push lines "" in
  let lines := push lines "Summary:" in
  s <- interp (summary ctx) ;;
  let lines := push lines ("- " ++ s) in
  let lines := push lines "" in
  lines <- (if negb (length (goals ctx) =? 0)%nat then
              lines <- pushBullets (push lines "Goals:") (goals ctx) ;;
              Ret (push lines "")
            else Ret lines) ;;
  lines <- (if negb (length (constraints ctx) =? 0)%nat then
              lines <- pushBullets (push lines "Constraints:") (constraints ctx) ;;
              Ret (push lines "")
            else Ret lines) ;;
  let lines := push lines "Style:" in
  s <- interp (tone (style ctx)) ;;
  let lines := push lines ("- Tone: " ++ s) in
  s <- interp (format (style ctx)) ;;
  let lines := push lines ("- Format: " ++ s) in
  let lines :=
    push lines ("- Ask when uncertain: "
                ++ (if truthy (ask_when_uncertain (style ctx)) then "yes" else "no")) in
  let lines := push lines "" in
  lines <- (if negb (length (notes (last_known_state ctx)) =? 0)%nat
               || truthy (as_of (last_known_state ctx))
            then
              let lines := push lines "Last Known State:" in
              lines <- (if truthy (as_of (last_known_state ctx)) then
                          s <- interp (as_of (last_known_state ctx)) ;;
                          Ret (push lines ("- As of: " ++ s))
                        else Ret lines) ;;
              lines <- pushBullets lines (notes (last_known_state ctx)) ;;
              Ret (push lines "")
            else Ret lines) ;;
  let lines := push lines "Instructions:" in
  let lines := fold_left (fun lines i => push lines ("- " ++ i)) (instructions ctx) lines in
  let lines := push lines "[CONTEXT_BLOCK_END]" in
  Ret (String.concat nl lines).

(* ------------------------------------------------------------------ *)
(** ** Command line *)

(** [out[key] = v] for a first occurrence, an array of the values for a
    repeated flag. *)
Definition addFlag (out : value) (key : string) (v : string) : value :=
  let old := get out key in
  if nullish old then set out key (VStr v)
  else match old with
       | VArr l ps => set out key (VArr (l ++ [VStr v]) ps)
       | _ => set out key (VArr [old; VStr v] [])
       end.

(** [out._.push(a)] *)
Definition addPositional (out : value) (a : string) : value :=
  match get out "_" with
  | VArr l ps => set out "_" (VArr (l ++ [VStr a]) ps)
  | _ => out
  end.

Fixpoint parseArgsFrom (argv : list string) (out : value) : outcome value :=
  match argv with
  | [] => Ret out
  | a :: rest =>
      if negb (startsWith "--" a) then parseArgsFrom rest (addPositional out a)
      else
        let key := slice2 a in
        if String.eqb key "json" || String.eqb key "force" then
          parseArgsFrom rest (set out key (VBool true))
        else
          match rest with
          | [] => die ("missing value for --" ++ key)
          | v :: rest' =>
              if String.eqb v "" || startsWith "--" v then
                die ("missing value for --" ++ key)
              else parseArgsFrom rest' (addFlag out key v)
          end
  end.

Definition parseArgs (argv : list string) : outcome value :=
  parseArgsFrom argv (VObj [("_", VArr [] [])]).

Definition parseYesNo (v : value) (flagName : string) : outcome value :=
  if nullish v then Ret VNull
  else
    s <- interp v ;;
    let s := toLowerCase (trim s) in
    if existsb (String.eqb s) ["yes"; "true"; "1"] then Ret (VBool true)
    else if existsb (String.eqb s) ["no"; "false"; "0"] then Ret (VBool false)
    else die ("invalid value for " ++ flagName ++ ": expected yes|no").

(** [Array.isArray(a) ? a : a ? [a] : []] *)
Definition toList (a : value) : list value :=
  match a with
  | VArr l _ => l
  | _ => if truthy a then [a] else []
  end.

(** [Array.isArray(a) ? a : a ? [a] : undefined] *)
Definition toArrayOrUndefined (a : value) : value :=
  match a with
  | VArr _ _ => a
  | _ => if truthy a then VArr [a] [] else VUndef
  end.

(* ------------------------------------------------------------------ *)
(** ** Record construction *)

Definition placeholderSummary : string :=
  "TODO: one-sentence purpose for this collaboration context".

Definition defaultConstraints : value :=
  VArr [ VStr "No claims of persistent AI memory";
         VStr "No bypassing safeguards";
         VStr "No network calls in v1" ] [].

(** [today] and [created] are the two successive readings of [todayISO()]. *)
Definition initLedgerEntry (lid project summary goals constraints : value)
    (today created : string) : value :=
  VObj [ ("lid", lid);
         ("project", project);
         ("created_at", VStr created);
         ("summary", VStr placeholderSummary);
         ("goals",
           if isArray goals && negb (length (elems_of goals) =? 0)%nat
           then goals else VArr [VStr "TODO"; VStr "TODO"] []);
         ("constraints",
           if isArray constraints && negb (length (elems_of constraints) =? 0)%nat
           then constraints else defaultConstraints);
         ("style",
           VObj [ ("tone", VStr "Precise, technical, minimal metaphor");
                  ("format", VStr "Short paragraphs, explicit bullets");
                  ("ask_when_uncertain", VBool true) ]);
         ("last_state",
           VObj [ ("as_of", VStr today);
                  ("notes",
                    VArr [VStr "Initialized ledger entry template via `ulc init`."] []) ]) ].

(* ------------------------------------------------------------------ *)
(** ** Record store: the files of the ledger directory

    A file is known by what reading and parsing it gives: a JSON value, or
    an exception with the engine's message.  The list is in the order
    [readdirSync] reports; a directory that does not exist reads as the empty
    one.  File names are taken as they are: a [lid] with path separators
    names a file elsewhere and is outside the model. *)

Inductive content : Type :=
| NotJson (err : string)
| Json (v : value).

Definition directory : Type := list (string * content).

Fixpoint readFile (name : string) (d : directory) : option content :=
  match d with
  | [] => None
  | (n, c) :: d' => if String.eqb name n then Some c else readFile name d'
  end.

Fixpoint writeFile (name : string) (c : content) (d : directory) : directory :=
  match d with
  | [] => [(name, c)]
  | (n, c') :: d' =>
      if String.eqb name n then (n, c) :: d' else (n, c') :: writeFile name c d'
  end.

(** A command: it reads and writes the directory and ends with an outcome. *)
Definition proc (A : Type) : Type := directory -> outcome A * directory.

Definition pure {A : Type} (o : outcome A) : proc A := fun d => (o, d).

Definition pbind {A B : Type} (m : proc A) (k : A -> proc B) : proc B :=
  fun d =>
    match m d with
    | (Ret a, d') => k a d'
    | (Throw e, d') => (Throw e, d')
    | (Exit msg, d') => (Exit msg, d')
    end.

Notation "x <~ m ;; k" := (pbind m (fun x => k))
  (at level 61, m at next level, right associativity).

(** [try { m } catch (e) { h e }] around a command *)
Definition ptry {A : Type} (m : proc A) (h : string -> proc A) : proc A :=
  fun d =>
    match m d with
    | (Throw e, d') => h e d'
    | r => r
    end.

Definition existsSync (name : string) : proc bool :=
  fun d => (Ret (match readFile name d with Some _ => true | None => false end), d).

(** [JSON.parse(fs.readFileSync(p, "utf8"))] *)
Definition readAndParse (name : string) : proc value :=
  fun d =>
    match readFile name d with
    | Some (Json v) => (Ret v, d)
    | Some (NotJson err) => (Throw err, d)
    | None => (Throw "ENOENT: no such file or directory", d)
    end.

(** [fs.writeFileSync(p, JSON.stringify(rec, null, 2) + "\n", "utf8")] *)
Definition writeFileSync (name : string) (rec : value) : proc unit :=
  fun d => (Ret tt, writeFile name (Json (persist rec)) d).

(** [path.join(dir, name)], without normalisation *)
Definition pathJoin (dir name : string) : string := dir ++ "/" ++ name.

Definition readJson (ledgerDir name : string) : proc value :=
  ptry (readAndParse name)
       (fun e => pure (die ("failed to read or parse JSON: " ++ pathJoin ledgerDir name
                            ++ nl ++ e))).

(* ------------------------------------------------------------------ *)
(** ** Listing *)

Fixpoint endsWith (suffix s : string) : bool :=
  String.eqb suffix s
  || match s with
     | EmptyString => false
     | String _ s' => endsWith suffix s'
     end.

Definition listEntry (rec : value) (p : string) : value :=
  VObj [ ("lid", get rec "lid");
         ("project", get rec "project");
         ("created_at", coalesce (get rec "created_at") (VStr ""));
         ("summary", coalesce (get rec "summary") (VStr ""));
         ("file", VStr p) ].

(** The body of [for (const f of files)]: the [try] block around one file,
    with its empty [catch]. *)
Definition listOne (ledgerDir : string) (entries : list value) (f : string)
  : proc (list value) :=
  let p := pathJoin ledgerDir f in
  ptry (rec <~ readJson ledgerDir f ;;
        if negb (truthy (get rec "lid")) || negb (truthy (get rec "project"))
        then pure (Ret entries)
        else pure (Ret (entries ++ [listEntry rec p])%list))
       (fun _ => pure (Ret entries)).

Fixpoint listLoop (ledgerDir : string) (files : list string) (entries : list value)
  : proc (list value) :=
  match files with
  | [] => pure (Ret entries)
  | f :: files' =>
      entries <~ listOne ledgerDir entries f ;;
      listLoop ledgerDir files' entries
  end.

Fixpoint sortKeys (entries : list value) : outcome (list (string * value)) :=
  match entries with
  | [] => Ret []
  | e :: entries' =>
      k <- interp (get e "created_at") ;;
      rest <- sortKeys entries' ;;
      Ret ((k, e) :: rest)
  end.

Section Listing.

(** [a.localeCompare(b)]: the collation of the host, negative, zero or
    positive. *)
Variable localeCompare : string -> string -> Z.

(** Insertion of [x], which stood before every element of [l]: it moves
    behind [y] only when the comparator
    [(a, b) => String(b.created_at).localeCompare(String(a.created_at))]
    is positive on [(x, y)], so equal keys keep their order. *)
Fixpoint insertEntry (x : string * value) (l : list (string * value))
  : list (string * value) :=
  match l with
  | [] => [x]
  | y :: l' =>
      if (0 <? localeCompare (fst y) (fst x))%Z then y :: insertEntry x l'
      else x :: l
  end.

(** [entries.sort(...)]: with fewer than two entries the comparator is not
    called; otherwise it converts the [created_at] of every entry. *)
Definition sortEntries (entries : list value) : outcome (list value) :=
  if (length entries <? 2)%nat then Ret entries
  else
    keyed <- sortKeys entries ;;
    Ret (map snd (fold_right insertEntry [] keyed)).

Definition listLedgerEntries (ledgerDir : string) : proc (list value) :=
  fun d =>
    let files := filter (endsWith ".json") (map fst d) in
    (entries <~ listLoop ledgerDir files [] ;;
     pure (sortEntries entries)) d.

End Listing.

(* ------------------------------------------------------------------ *)
(** ** Commands *)

Definition defaultLedgerDir : string := "~/.ulc/ledger".

(** [args["ledger-dir"] ? path.resolve(args["ledger-dir"]) : defaultLedgerDir()];
    [path.resolve] throws on an argument that is not a string. *)
Definition ledgerDirOf (args : value) : outcome string :=
  if truthy (get args "ledger-dir") then
    match get args "ledger-dir" with
    | VStr s => Ret s
    | _ => Throw TypeError
    end
  else Ret defaultLedgerDir.

Record loaded : Type := mkLoaded { rec : value; fileName : string; filePath : string }.

Definition loadLedger (lid : value) (ledgerDir : string) : proc loaded :=
  l <~ pure (interp lid) ;;
  let name := l ++ ".json" in
  let filePath := pathJoin ledgerDir name in
  found <~ existsSync name ;;
  if negb found then
    pure (die ("ledger entry not found: " ++ filePath ++ nl
               ++ "Tip: create ~/.ulc/ledger/" ++ l ++ ".json or use --ledger-dir"))
  else
    rec <~ readJson ledgerDir name ;;
    _ <~ pure (hardValidateLedgerRecord rec) ;;
    pure (Ret {| rec := rec; fileName := name; filePath := filePath |}).

(** What a command prints: the warnings on the error stream, then the text
    on the standard output. *)
Record report : Type := mkReport { warnings : list string; stdout : string }.

(** The record being patched, with the [changed] flag. *)
Definition patching : Type := (value * bool)%type.

Definition setSummary (args : value) (st : patching) : patching :=
  let '(rec, changed) := st in
  if truthy (get args "summary") then (set rec "summary" (get args "summary"), true)
  else (rec, changed).

Definition setProject (args : value) (st : patching) : patching :=
  let '(rec, changed) := st in
  if truthy (get args "project") then (set rec "project" (get args "project"), true)
  else (rec, changed).

(** [Array.isArray(v) ? v : []] *)
Definition arrayOrEmpty (v : value) : value :=
  if isArray v then v else VArr [] [].

(** The array [arr] after its elements became [l] by pushes: it keeps its
    named properties. *)
Definition withElems (arr : value) (l : list value) : value :=
  match arr with
  | VArr _ ps => VArr l ps
  | _ => arr
  end.

(** [for (const x of xs) arr.push(x)] *)
Definition pushAll (arr : value) (xs : list value) : value :=
  withElems arr (elems_of arr ++ xs).

(** The [add-goal] and [add-constraint] blocks. *)
Definition addTo (field flag : string) (args : value) (st : patching) : patching :=
  let '(rec, changed) := st in
  let adds := toList (get args flag) in
  if negb (length adds =? 0)%nat then
    (set rec field (pushAll (arrayOrEmpty (get rec field)) adds), true)
  else (rec, changed).

(** The [remove-goal] and [remove-constraint] blocks. *)
Definition removeFrom (field flag : string) (args : value) (st : patching) : patching :=
  let '(rec, changed) := st in
  let removes := toList (get args flag) in
  if negb (length removes =? 0)%nat then
    let rec := set rec field (arrayOrEmpty (get rec field)) in
    let before := length (elems_of (get rec field)) in
    let rec :=
      set rec field
        (VArr (filter (fun g => negb (includes removes g)) (elems_of (get rec field))) []) in
    if negb (length (elems_of (get rec field)) =? before)%nat then (rec, true)
    else (rec, changed)
  else (rec, changed).

Definition addGoals := addTo "goals" "add-goal".
Definition removeGoals := removeFrom "goals" "remove-goal".
Definition addConstraints := addTo "constraints" "add-constraint".
Definition removeConstraints := removeFrom "constraints" "remove-constraint".

(** [(v && typeof v === "object") ? v : {}] *)
Definition objectOrEmpty (v : value) : value :=
  if truthy v && typeofObject v then v else emptyObject.

Definition setAskWhenUncertain (args : value) (st : patching) : outcome patching :=
  let '(rec, changed) := st in
  if truthy (get args "ask-when-uncertain") then
    let rec := set rec "style" (objectOrEmpty (get rec "style")) in
    b <- parseYesNo (get args "ask-when-uncertain") "--ask-when-uncertain" ;;
    Ret (set rec "style" (set (get rec "style") "ask_when_uncertain" b), true)
  else Ret (rec, changed).

(** First loop over [addNotes]. *)
Definition pushNewNotes (notes : list value) (addNotes : list value) : list value :=
  fold_left (fun notes n => if negb (includes notes n) then (notes ++ [n])%list else notes)
            addNotes notes.

(** Second loop over [addNotes], which also sets [addedAny]. *)
Definition pushNewNotesFlagged (notes : list value) (addNotes : list value)
  : list value * bool :=
  fold_left (fun '(notes, addedAny) n =>
               if negb (includes notes n) then ((notes ++ [n])%list, true)
               else (notes, addedAny))
            addNotes (notes, false).

Definition addNotes (args : value) (st : patching) : patching :=
  let '(rec, changed) := st in
  let addNotes := toList (get args "add-note") in
  if negb (length addNotes =? 0)%nat then
    let rec := set rec "last_state" (objectOrEmpty (get rec "last_state")) in
    let rec :=
      set rec "last_state"
        (set (get rec "last_state") "notes"
           (arrayOrEmpty (get (get rec "last_state") "notes"))) in
    let notes := get (get rec "last_state") "notes" in
    let notes := withElems notes (pushNewNotes (elems_of notes) addNotes) in
    let '(final, addedAny) := pushNewNotesFlagged (elems_of notes) addNotes in
    let notes := withElems notes final in
    let rec := set rec "last_state" (set (get rec "last_state") "notes" notes) in
    if addedAny then (rec, true) else (rec, changed)
  else (rec, changed).

(** The edits of [update], in the order of the source. *)
Definition applyEdits (args : value) (rec : value) : outcome patching :=
  let st := (rec, false) in
  let st := setSummary args st in
  let st := setProject args st in
  let st := addGoals args st in
  let st := removeGoals args st in
  let st := addConstraints args st in
  let st := removeConstraints args st in
  st <- setAskWhenUncertain args st ;;
  Ret (addNotes args st).

(** The stamping of [last_state] and [modified_at]; [today] is the reading
    of [todayISO()] and [now] that of [nowISO()]. *)
Definition stamp (rec : value) (today now : string) : value :=
  let rec := set rec "last_state" (objectOrEmpty (get rec "last_state")) in
  let rec := set rec "last_state" (set (get rec "last_state") "as_of" (VStr today)) in
  let rec :=
    set rec "last_state"
      (set (get rec "last_state") "notes"
         (arrayOrEmpty (get (get rec "last_state") "notes"))) in
  set rec "modified_at" (VStr now).

Definition noChanges : string := "No changes applied (no patch flags provided)." ++ nl.

Definition update (args : value) (today now : string) : proc report :=
  let lid := get args "lid" in
  if negb (truthy lid) then pure (die "update requires --lid <LID>")
  else
    ledgerDir <~ pure (ledgerDirOf args) ;;
    ld <~ loadLedger lid ledgerDir ;;
    st <~ pure (applyEdits args (rec ld)) ;;
    let '(rec, changed) := st in
    if negb changed then pure (Ret {| warnings := []; stdout := noChanges |})
    else
      let rec := stamp rec today now in
      _ <~ pure (hardValidateLedgerRecord rec) ;;
      let warnings := softValidateLedgerRecord rec in
      _ <~ writeFileSync (fileName ld) rec ;;
      pure (Ret {| warnings := warnings; stdout := "Updated: " ++ filePath ld ++ nl |}).

Definition init (args : value) (today created : string) : proc report :=
  let lid := get args "lid" in
  let project := get args "project" in
  if negb (truthy lid) then pure (die "init requires --lid <LID>")
  else if negb (truthy project) then
    pure (die ("init requires --project " ++ dq ++ "<name>" ++ dq))
  else
    ledgerDir <~ pure (ledgerDirOf args) ;;
    l <~ pure (interp lid) ;;
    let name := l ++ ".json" in
    let filePath := pathJoin ledgerDir name in
    found <~ existsSync name ;;
    if found && negb (truthy (get args "force")) then
      pure (die ("ledger entry already exists: " ++ filePath ++ nl
                 ++ "Use --force to overwrite."))
    else
      let summary := get args "summary" in
      let goals := toArrayOrUndefined (get args "goal") in
      let constraints := toArrayOrUndefined (get args "constraint") in
      let rec := initLedgerEntry lid project summary goals constraints today created in
      _ <~ writeFileSync name rec ;;
      pure (Ret {| warnings := []; stdout := "Created: " ++ filePath ++ nl |}).

(** [ulc update <argv>] and [ulc init <argv>]: the two branches of [main]
    after [parseArgs(argv.slice(1))]. *)
Definition ulcUpdate (argv : list string) (today now : string) : proc report :=
  args <~ pure (parseArgs argv) ;;
  update args today now.

Definition ulcInit (argv : list string) (today created : string) : proc report :=
  args <~ pure (parseArgs argv) ;;
  init args today created.

(* ------------------------------------------------------------------ *)
(** ** Concrete records and directories used in the examples *)

Module Examples.

Definition recA : value :=
  VObj [ ("lid", VStr "AAA"); ("project", VStr "P");
         ("created_at", VStr "2025-01-01"); ("summary", VStr "S");
         ("goals", VArr [VStr "X"; VStr "Y"; VStr "X"] []) ].

Definition dirA : directory := [("AAA.json", Json recA)].

(** One file that does not parse next to one valid record. *)
Definition dirMixed : directory :=
  [("bad.json", NotJson "Unexpected token"); ("AAA.json", Json recA)].

Definition today : string := "2026-01-02".
Definition now : string := "2026-01-02T10:00:00".

(** All four required fields present, [created_at] made of spaces only. *)
Definition recBlankDate : value :=
  VObj [ ("lid", VStr "AAA"); ("project", VStr "P");
         ("created_at", VStr "   "); ("summary", VStr "S") ].

(** [project] and [summary] both blank after trimming. *)
Definition recTwoBlank : value :=
  VObj [ ("lid", VStr "AAA"); ("project", VStr "  ");
         ("created_at", VStr "2025-01-01"); ("summary", VStr " ") ].

(** [project] empty and [summary] absent. *)
Definition recTwoMissing : value :=
  VObj [ ("lid", VStr "AAA"); ("project", VStr "");
         ("created_at", VStr "2025-01-01") ].



(** A style whose [ask_when_uncertain] is a string. *)
Definition recAskText : value :=
  VObj [ ("lid", VStr "AAA"); ("project", VStr "P");
         ("created_at", VStr "2025-01-01"); ("summary", VStr "S");
         ("style", VObj [("ask_when_uncertain", VStr "no")]) ].

End Examples.

(* ------------------------------------------------------------------ *)
(** ** Properties stated in the words of the specification *)

(** A field is present and non-empty. *)
Definition presentNonEmpty (rec : value) (k : string) : Prop :=
  truthy (get rec k) = true.

(** A field is a string that is not blank once trimmed. *)
Definition nonBlankText (rec : value) (k : string) : Prop :=
  exists s, get rec k = VStr s /\ trim s <> "".

(** A field is a string whose trimmed length is at least [n]. *)
Definition textOfTrimmedLength (n : nat) (rec : value) (k : string) : Prop :=
  exists s, get rec k = VStr s /\ n <= String.length (trim s).

(** The name of a field, when the field is absent or empty. *)
Definition namedIfAbsent (rec : value) (k : string) : list string :=
  if truthy (get rec k) then [] else [k].

(** The required fields that are absent or empty, each once, in the order
    lid, project, created_at, summary. *)
Definition absentFields (rec : value) : list string :=
  (namedIfAbsent rec "lid" ++ namedIfAbsent rec "project"
   ++ namedIfAbsent rec "created_at" ++ namedIfAbsent rec "summary")%list.

(** The four required fields are all strings, non-blank after trimming. *)
Definition allNonBlank (rec : value) : bool :=
  forallb (fun k => negb (invalidText (get rec k))) required.

(** Objects and arrays: the values that hold properties. *)
Definition holdsProps (v : value) : bool :=
  match v with VObj _ | VArr _ _ => true | _ => false end.

(** Plain objects. *)
Definition isObject (v : value) : bool :=
  match v with VObj _ => true | _ => false end.


(** Some element of [l] is one of the values of [removes]. *)
Definition removesSome (removes l : list value) : bool :=
  existsb (fun g => includes removes g) l.

(** The goals (or constraints) of [rec] when the removal block runs: the
    stored ones, then those the add block has just pushed. *)
Definition listBeforeRemoval (field addFlag : string) (args rec : value) : list value :=
  (elems_of (arrayOrEmpty (get rec field)) ++ toList (get args addFlag))%list.

Definition nonEmpty {A : Type} (l : list A) : bool :=
  match l with [] => false | _ :: _ => true end.

(** A flag was given with a text: [if (args.flag)]. *)
Definition given (args : value) (flag : string) : bool := truthy (get args flag).

(** A repeatable flag was given at least once: [if (list.length)]. *)
Definition givenSome (args : value) (flag : string) : bool :=
  nonEmpty (toList (get args flag)).

(** The fields the edits of [update] assign. *)
Definition edited : list string :=
  ["summary"; "project"; "goals"; "constraints"; "style"; "last_state"].

(** The layout of the text block in the words of the specification. *)
Definition bullet (s : string) : string := "- " ++ s.

Fixpoint texts (xs : list value) : option (list string) :=
  match xs with
  | [] => Some []
  | x :: xs' =>
      match toString x, texts xs' with
      | Some s, Some ss => Some (s :: ss)
      | _, _ => None
      end
  end.

(** A titled section: the title, one bullet per entry, a blank line. *)
Definition section (title : string) (entries : list string) : list string :=
  (title :: map bullet entries ++ [""])%list.

(** A section that is left out when its condition fails. *)
Definition sectionWhen (c : bool) (title : string) (entries : list string) : list string :=
  if c then section title entries else [].

Definition textLayout (ctx : ContextPacket) : option (list string) :=
  match toString (lid (meta ctx)), toString (project (meta ctx)),
        toString (created_at (meta ctx)), toString (summary ctx),
        texts (goals ctx), texts (constraints ctx),
        toString (tone (style ctx)), toString (format (style ctx)),
        toString (as_of (last_known_state ctx)), texts (notes (last_known_state ctx))
  with
  | Some l, Some p, Some c, Some s, Some gs, Some cs, Some t, Some f, Some a, Some ns =>
      Some ([ "[CONTEXT_BLOCK_START]";
              ("Source: " ++ source (meta ctx) ++ " v" ++ version (meta ctx))%string;
              ("Ledger ID: " ++ l)%string;
              ("Project: " ++ p)%string;
              ("Created: " ++ c)%string;
              "";
              "Summary:";
              bullet s;
              "" ]
            ++ sectionWhen (nonEmpty (goals ctx)) "Goals:" gs
            ++ sectionWhen (nonEmpty (constraints ctx)) "Constraints:" cs
            ++ [ "Style:";
                 bullet ("Tone: " ++ t)%string;
                 bullet ("Format: " ++ f)%string;
                 bullet ("Ask when uncertain: "
                         ++ (if truthy (ask_when_uncertain (style ctx)) then "yes" else "no"))%string;
                 "" ]
            ++ sectionWhen (truthy (as_of (last_known_state ctx))
                            || nonEmpty (notes (last_known_state ctx)))
                 "Last Known State:"
                 ((if truthy (as_of (last_known_state ctx)) then [("As of: " ++ a)%string] else [])
                  ++ ns)
            ++ "Instructions:" :: map bullet (instructions ctx)
            ++ [ "[CONTEXT_BLOCK_END]" ])%list
  | _, _, _, _, _, _, _, _, _, _ => None
  end.

(** The values [JSON.parse] produces: no [undefined], and arrays without
    named properties. *)
Fixpoint isJson (v : value) : bool :=
  match v with
  | VUndef => false
  | VArr l ps => forallb isJson l && negb (nonEmpty ps)
  | VObj ps => forallb (fun p => isJson (snd p)) ps
  | _ => true
  end.

Definition jsonFile (c : content) : bool :=
  match c with
  | Json v => isJson v
  | NotJson _ => true
  end.

(** Every file of the directory that parses holds a value of [JSON.parse]. *)
Definition jsonDirectory (d : directory) : bool :=
  forallb (fun f => jsonFile (snd f)) d.

(** The [created_at] of the record stored under [name], if there is one. *)
Definition createdAtOf (name : string) (d : directory) : option value :=
  match readFile name d with
  | Some (Json v) => Some (get v "created_at")
  | _ => None
  end.

(** The properties of a written object, as they read back. *)
Fixpoint persistFields (ps : list (string * value)) : list (string * value) :=
  match ps with
  | [] => []
  | (k, VUndef) :: ps' => persistFields ps'
  | (k, x) :: ps' => (k, persist x) :: persistFields ps'
  end.

(** The flags that stand alone: [--json] and [--force]. *)
Definition isSwitch (key : string) : bool :=
  String.eqb key "json" || String.eqb key "force".

(** The flags that take a value, as the help text and the commands name
    them. *)
Definition valueFlags : list string :=
  [ "lid"; "ledger-dir"; "file"; "project"; "summary"; "goal"; "constraint";
    "add-goal"; "remove-goal"; "add-constraint"; "remove-constraint";
    "tone"; "format"; "ask-when-uncertain"; "add-note" ].

(** The texts given to the flag [--k], in the order of the command line. *)
Fixpoint flagValues (k : string) (argv : list string) : list string :=
  match argv with
  | [] => []
  | a :: rest =>
      if negb (startsWith "--" a) then flagValues k rest
      else if isSwitch (slice2 a) then flagValues k rest
      else
        match rest with
        | [] => []
        | v :: rest' =>
            ((if String.eqb (slice2 a) k then [v] else []) ++ flagValues k rest')%list
        end
  end.

(** What a flag reads as: nothing, its text, or the array of its texts. *)
Definition flagReading (vs : list string) : value :=
  match vs with
  | [] => VUndef
  | [v] => VStr v
  | _ => VArr (map VStr vs) []
  end.

(** A text that can follow a flag as its value. *)
Definition isFlagText (v : string) : bool :=
  negb (String.eqb v "") && negb (startsWith "--" v).

(** The first flag of the command line that is not followed by a value. *)
Fixpoint firstMissing (argv : list string) : option string :=
  match argv with
  | [] => None
  | a :: rest =>
      if negb (startsWith "--" a) then firstMissing rest
      else if isSwitch (slice2 a) then firstMissing rest
      else
        match rest with
        | [] => Some (slice2 a)
        | v :: rest' => if isFlagText v then firstMissing rest' else Some (slice2 a)
        end
  end.

(** The flags [update] reads, besides [--lid] and [--ledger-dir]. *)
Definition editFlags : list string :=
  [ "summary"; "project"; "add-goal"; "remove-goal"; "add-constraint";
    "remove-constraint"; "ask-when-uncertain"; "add-note" ].

(** The notes the add-note block finds in a record, and the notes a record
    holds. *)
Definition storedNotes (rec : value) : list value :=
  elems_of (arrayOrEmpty (get (objectOrEmpty (get rec "last_state")) "notes")).

Definition notesOf (rec : value) : list value :=
  elems_of (get (get rec "last_state") "notes").

(** A ledger id without path separators: [path.join] then names the file
    [<lid>.json] of the ledger directory itself. *)
Fixpoint isPlainName (s : string) : bool :=
  match s with
  | EmptyString => true
  | String c s' =>
      negb (Ascii.eqb c (ascii_of_nat 47)) && negb (Ascii.eqb c (ascii_of_nat 92))
      && isPlainName s'
  end.


(* ------------------------------------------------------------------ *)
(** ** Properties of the primitives *)

Lemma lookup_assign_same (k : string) (x : value) (ps : list (string * value)) :
  lookup k (assign k x ps) = x.
Proof.
  induction ps as [|[k' y] ps IH]; simpl.
  - now rewrite String.eqb_refl.
  - destruct (String.eqb k k') eqn:E; simpl; rewrite E; auto.
Qed.

Lemma lookup_assign_other (k k' : string) (x : value) (ps : list (string * value)) :
  k <> k' -> lookup k (assign k' x ps) = lookup k ps.
Proof.
  intros Hne. induction ps as [|[j y] ps IH]; simpl.
  - apply String.eqb_neq in Hne. now rewrite Hne.
  - destruct (String.eqb k' j) eqn:E; simpl.
    + apply String.eqb_eq in E. subst j.
      apply String.eqb_neq in Hne. now rewrite Hne.
    + now rewrite IH.
Qed.

Lemma get_set_other (v : value) (k k' : string) (x : value) :
  k <> k' -> get (set v k' x) k = get v k.
Proof.
  intros Hne. destruct v; simpl; auto using lookup_assign_other.
Qed.

Lemma get_set_same (v : value) (k : string) (x : value) :
  holdsProps v = true -> get (set v k x) k = x.
Proof.
  destruct v; simpl; try discriminate; intros _; apply lookup_assign_same.
Qed.

Lemma holdsProps_set (v : value) (k : string) (x : value) :
  holdsProps (set v k x) = holdsProps v.
Proof. now destruct v. Qed.

Lemma truthy_holdsProps (v : value) (k : string) :
  truthy (get v k) = true -> holdsProps v = true.
Proof. destruct v; simpl; auto; discriminate. Qed.

Lemma blank_spec (s : string) : blank s = false <-> trim s <> "".
Proof.
  unfold blank. split; intros H.
  - now apply String.eqb_neq.
  - now apply String.eqb_neq.
Qed.

(* ------------------------------------------------------------------ *)
(** ** Validator *)

Lemma missingFields_nil (rec : value) :
  missingFields rec = [] <-> forall k, In k required -> presentNonEmpty rec k.
Proof.
  unfold missingFields, presentNonEmpty. split.
  - intros H k Hk.
    destruct (truthy (get rec k)) eqn:E; auto.
    assert (Hin : In k (filter (fun k => negb (truthy (get rec k))) required)).
    { apply filter_In. split; auto. now rewrite E. }
    rewrite H in Hin. destruct Hin.
  - intros H. induction required as [|k l IH]; simpl; auto.
    rewrite (H k (or_introl eq_refl)). simpl.
    apply IH. intros j Hj. apply H. now right.
Qed.

Lemma invalidLid_false (rec : value) :
  invalidLid (get rec "lid") = false <-> textOfTrimmedLength 3 rec "lid".
Proof.
  unfold textOfTrimmedLength. split.
  - destruct (get rec "lid"); simpl; try discriminate.
    intros H. exists s. split; auto. apply Nat.ltb_ge in H. exact H.
  - intros [s [E H]]. rewrite E. simpl. now apply Nat.ltb_ge.
Qed.

Lemma invalidText_false (rec : value) (k : string) :
  invalidText (get rec k) = false <-> nonBlankText rec k.
Proof.
  unfold nonBlankText. split.
  - destruct (get rec k); simpl; try discriminate.
    intros H. exists s. split; auto. now apply blank_spec.
  - intros [s [E H]]. rewrite E. simpl. now apply blank_spec.
Qed.

Lemma hardValidate_Ret_same (rec r : value) :
  hardValidateLedgerRecord rec = Ret r -> r = rec.
Proof.
  unfold hardValidateLedgerRecord, die.
  destruct (negb (length (missingFields rec) =? 0)%nat); try discriminate.
  destruct (invalidLid (get rec "lid")); try discriminate.
  destruct (invalidText (get rec "project")); try discriminate.
  destruct (invalidText (get rec "summary")); try discriminate.
  congruence.
Qed.

Lemma hardValidate_Ret_iff (rec : value) :
  hardValidateLedgerRecord rec = Ret rec <->
  missingFields rec = [] /\ invalidLid (get rec "lid") = false
  /\ invalidText (get rec "project") = false
  /\ invalidText (get rec "summary") = false.
Proof.
  unfold hardValidateLedgerRecord, die. split.
  - destruct (missingFields rec) eqn:M; simpl; try discriminate.
    destruct (invalidLid (get rec "lid")); try discriminate.
    destruct (invalidText (get rec "project")); try discriminate.
    destruct (invalidText (get rec "summary")); try discriminate.
    auto.
  - intros (M & L & P & S). rewrite M, L, P, S. reflexivity.
Qed.

Lemma hardValidate_holdsProps (rec r : value) :
  hardValidateLedgerRecord rec = Ret r -> holdsProps rec = true.
Proof.
  intros H. pose proof (hardValidate_Ret_same _ _ H). subst r.
  apply hardValidate_Ret_iff in H. destruct H as (M & _).
  apply (truthy_holdsProps rec "lid").
  apply (proj1 (missingFields_nil rec) M). simpl. auto.
Qed.

Lemma missingFields_absentFields (rec : value) :
  missingFields rec = absentFields rec.
Proof.
  unfold missingFields, absentFields, namedIfAbsent, required. cbn [filter].
  destruct (truthy (get rec "lid")), (truthy (get rec "project")),
    (truthy (get rec "created_at")), (truthy (get rec "summary")); reflexivity.
Qed.

(** C5 (as amended).  Hard validation succeeds, returning the record
    unchanged, exactly when the four required fields are present and
    non-empty, [lid] is a string of trimmed length at least 3, and [project]
    and [summary] are strings that are not blank after trimming; [created_at]
    is only required to be non-empty.  When some of the four fields are
    absent or empty, the error enumerates exactly those field names, each
    once, in the order lid, project, created_at, summary.  When none is, a
    field that is blank or not a string is reported alone, by the error of
    the first such field among lid, project and summary. *)
Theorem hard_validation_outcomes (rec : value) :
  (hardValidateLedgerRecord rec = Ret rec <->
     (forall k, In k required -> presentNonEmpty rec k)
     /\ textOfTrimmedLength 3 rec "lid"
     /\ nonBlankText rec "project"
     /\ nonBlankText rec "summary")
  /\ (forall r, hardValidateLedgerRecord rec = Ret r -> r = rec)
  /\ (forall k, In k (missingFields rec) <->
                In k required /\ ~ presentNonEmpty rec k)
  /\ (missingFields rec <> [] ->
      hardValidateLedgerRecord rec =
      Exit ("ledger entry missing required field(s): "
            ++ String.concat ", " (missingFields rec)))
  /\ missingFields rec = absentFields rec
  /\ (absentFields rec = [] ->
      ~ textOfTrimmedLength 3 rec "lid" ->
      hardValidateLedgerRecord rec = Exit "ledger entry has invalid `lid`")
  /\ (absentFields rec = [] ->
      textOfTrimmedLength 3 rec "lid" ->
      ~ nonBlankText rec "project" ->
      hardValidateLedgerRecord rec = Exit "ledger entry has invalid `project`")
  /\ (absentFields rec = [] ->
      textOfTrimmedLength 3 rec "lid" ->
      nonBlankText rec "project" ->
      ~ nonBlankText rec "summary" ->
      hardValidateLedgerRecord rec = Exit "ledger entry has invalid `summary`").
Proof.
  split; [| split; [| split; [| split; [| split; [| split; [| split]]]]]].
  - rewrite hardValidate_Ret_iff, missingFields_nil, invalidLid_false.
    rewrite !invalidText_false. reflexivity.
  - apply hardValidate_Ret_same.
  - intros k. unfold missingFields, presentNonEmpty. rewrite filter_In.
    destruct (truthy (get rec k)); simpl; intuition congruence.
  - intros H. unfold hardValidateLedgerRecord, die.
    destruct (missingFields rec); [congruence | reflexivity].
  - apply missingFields_absentFields.
  - rewrite <- missingFields_absentFields. intros M L.
    unfold hardValidateLedgerRecord, die. rewrite M. cbn [length Nat.eqb negb].
    destruct (invalidLid (get rec "lid")) eqn:E; [reflexivity |].
    now apply invalidLid_false in E.
  - rewrite <- missingFields_absentFields. intros M L P.
    unfold hardValidateLedgerRecord, die. rewrite M. cbn [length Nat.eqb negb].
    apply invalidLid_false in L. rewrite L.
    destruct (invalidText (get rec "project")) eqn:E; [reflexivity |].
    now apply invalidText_false in E.
  - rewrite <- missingFields_absentFields. intros M L P S.
    unfold hardValidateLedgerRecord, die. rewrite M. cbn [length Nat.eqb negb].
    apply invalidLid_false in L. apply invalidText_false in P. rewrite L, P.
    destruct (invalidText (get rec "summary")) eqn:E; [reflexivity |].
    now apply invalidText_false in E.
Qed.

Lemma hard_validation_outcomes_witness :
  hardValidateLedgerRecord Examples.recTwoMissing
  = Exit "ledger entry missing required field(s): project, summary"
  /\ hardValidateLedgerRecord Examples.recTwoBlank
     = Exit "ledger entry has invalid `project`".
Proof.
  split.
  - apply (proj1 (proj2 (proj2 (proj2 (hard_validation_outcomes Examples.recTwoMissing))))).
    vm_compute. discriminate.
  - apply (proj1 (proj2 (proj2 (proj2 (proj2 (proj2 (proj2
             (hard_validation_outcomes Examples.recTwoBlank)))))))).
    + reflexivity.
    + exists "AAA". split; [reflexivity | vm_compute; lia].
    + intros (s & E & H). injection E as <-. apply H. reflexivity.
Defined.

(** C5, as stated, fails on both counts.  A record whose [created_at] is
    blank after trimming passes hard validation; and for a record whose
    [project] and [summary] are both blank after trimming, the error names
    [project] alone. *)
Lemma hard_validation_differs_from_blank_check :
  (hardValidateLedgerRecord Examples.recBlankDate = Ret Examples.recBlankDate
   /\ allNonBlank Examples.recBlankDate = false)
  /\ (invalidText (get Examples.recTwoBlank "project") = true
      /\ invalidText (get Examples.recTwoBlank "summary") = true
      /\ hardValidateLedgerRecord Examples.recTwoBlank
         = Exit "ledger entry has invalid `project`").
Proof. repeat split; reflexivity. Qed.

(* ------------------------------------------------------------------ *)
(** ** Compiler *)

Lemma coalesce_nullish (a b : value) : nullish a = true -> coalesce a b = b.
Proof. unfold coalesce. now intros ->. Qed.

Lemma coalesce_present (a b : value) : nullish a = false -> coalesce a b = a.
Proof. unfold coalesce. now intros ->. Qed.

Lemma get_coalesce_emptyObject (v : value) (k : string) :
  get (coalesce v emptyObject) k = get v k.
Proof. unfold coalesce. destruct v; reflexivity. Qed.

(** C6 (as amended).  Compiling a record fills [style.tone] with the
    record's value or [Precise, technical], [style.format] with the record's
    value or [Bullets preferred], and [style.ask_when_uncertain] with the
    record's value, whatever its type, or [true] when the field is absent or
    null; a boolean is therefore kept.  A record with no [style] and no
    [last_state] compiles to the three defaults and to
    [last_known_state = {as_of: "", notes: []}]. *)
Theorem compile_style_defaults (ps : list (string * value)) :
  exists ctx,
    compileContext (VObj ps) = Ret ctx
    /\ (let st := get (VObj ps) "style" in
        (nullish (get st "tone") = true -> tone (style ctx) = VStr "Precise, technical")
        /\ (nullish (get st "tone") = false -> tone (style ctx) = get st "tone")
        /\ (nullish (get st "format") = true ->
            format (style ctx) = VStr "Bullets preferred")
        /\ (nullish (get st "format") = false -> format (style ctx) = get st "format")
        /\ (nullish (get st "ask_when_uncertain") = true ->
            ask_when_uncertain (style ctx) = VBool true)
        /\ (nullish (get st "ask_when_uncertain") = false ->
            ask_when_uncertain (style ctx) = get st "ask_when_uncertain")
        /\ (forall b, get st "ask_when_uncertain" = VBool b ->
                      ask_when_uncertain (style ctx) = VBool b))
    /\ (nullish (get (VObj ps) "style") = true ->
        nullish (get (VObj ps) "last_state") = true ->
        style ctx = {| tone := VStr "Precise, technical";
                       format := VStr "Bullets preferred";
                       ask_when_uncertain := VBool true |}
        /\ last_known_state ctx = {| as_of := VStr ""; notes := [] |}).
Proof.
  eexists. split; [reflexivity |]. cbn [style tone format ask_when_uncertain
    last_known_state as_of notes].
  rewrite !get_coalesce_emptyObject.
  split.
  - cbv zeta. repeat split; intros H.
    + now apply coalesce_nullish.
    + now apply coalesce_present.
    + now apply coalesce_nullish.
    + now apply coalesce_present.
    + now apply coalesce_nullish.
    + now apply coalesce_present.
    + intros E. rewrite E. reflexivity.
  - intros Hs Hl.
    destruct (get (VObj ps) "style"); try discriminate;
      destruct (get (VObj ps) "last_state"); try discriminate; split; reflexivity.
Qed.

Lemma compile_style_defaults_witness :
  exists ctx,
    compileContext Examples.recA = Ret ctx
    /\ style ctx = {| tone := VStr "Precise, technical";
                      format := VStr "Bullets preferred";
                      ask_when_uncertain := VBool true |}
    /\ last_known_state ctx = {| as_of := VStr ""; notes := [] |}.
Proof.
  destruct (compile_style_defaults
              [ ("lid", VStr "AAA"); ("project", VStr "P");
                ("created_at", VStr "2025-01-01"); ("summary", VStr "S");
                ("goals", VArr [VStr "X"; VStr "Y"; VStr "X"] []) ])
    as (ctx & Hc & _ & Hd).
  exists ctx. split; [exact Hc |].
  apply Hd; reflexivity.
Defined.

(** C6, as stated, fails: a non-boolean [ask_when_uncertain] is not
    replaced by [true]. *)
Lemma compile_keeps_non_boolean_ask :
  isBoolean (get (get Examples.recAskText "style") "ask_when_uncertain") = false
  /\ ~ (exists ctx, compileContext Examples.recAskText = Ret ctx
                    /\ ask_when_uncertain (style ctx) = VBool true).
Proof.
  split; [reflexivity |].
  intros (ctx & Hc & Ha). vm_compute in Hc.
  injection Hc as <-. discriminate Ha.
Qed.

(* ------------------------------------------------------------------ *)
(** ** Record store *)

Lemma readFile_writeFile_same (name : string) (c : content) (d : directory) :
  readFile name (writeFile name c d) = Some c.
Proof.
  induction d as [|[n c'] d IH]; simpl.
  - now rewrite String.eqb_refl.
  - destruct (String.eqb name n) eqn:E; simpl; rewrite E; auto.
Qed.

Lemma readFile_writeFile_other (name name' : string) (c : content) (d : directory) :
  name <> name' -> readFile name (writeFile name' c d) = readFile name d.
Proof.
  intros Hne. apply String.eqb_neq in Hne.
  induction d as [|[n c'] d IH]; simpl.
  - now rewrite Hne.
  - destruct (String.eqb name' n) eqn:E; simpl.
    + apply String.eqb_eq in E. subst n. now rewrite Hne.
    + now rewrite IH.
Qed.

Lemma readJson_store (ledgerDir name : string) (d : directory) :
  snd (readJson ledgerDir name d) = d.
Proof.
  unfold readJson, ptry, readAndParse, pure.
  destruct (readFile name d) as [[e|v]|]; reflexivity.
Qed.

Lemma readJson_Ret (ledgerDir name : string) (d d' : directory) (v : value) :
  readJson ledgerDir name d = (Ret v, d') -> readFile name d = Some (Json v).
Proof.
  unfold readJson, ptry, readAndParse, pure, die.
  destruct (readFile name d) as [[e|w]|]; intros H; inversion H; reflexivity.
Qed.

Lemma readJson_not_Throw (ledgerDir name : string) (d : directory) (e : string) :
  fst (readJson ledgerDir name d) <> Throw e.
Proof.
  unfold readJson, ptry, readAndParse, pure, die.
  destruct (readFile name d) as [[e'|w]|]; simpl; discriminate.
Qed.

Lemma loadLedger_store (lid : value) (ledgerDir : string) (d : directory) :
  snd (loadLedger lid ledgerDir d) = d.
Proof.
  unfold loadLedger, pbind, pure, existsSync.
  destruct (interp lid) as [l| |]; simpl; try reflexivity.
  destruct (readFile (l ++ ".json") d) as [c|] eqn:R; simpl; try reflexivity.
  pose proof (readJson_store ledgerDir (l ++ ".json") d) as S.
  destruct (readJson ledgerDir (l ++ ".json") d) as [[v| |] d1]; simpl in S; subst d1;
    try reflexivity.
  destruct (hardValidateLedgerRecord v); reflexivity.
Qed.

Lemma loadLedger_Ret (lid : value) (ledgerDir : string) (d d' : directory) (ld : loaded) :
  loadLedger lid ledgerDir d = (Ret ld, d') ->
  d' = d
  /\ readFile (fileName ld) d = Some (Json (rec ld))
  /\ hardValidateLedgerRecord (rec ld) = Ret (rec ld)
  /\ (exists l, toString lid = Some l
                /\ fileName ld = l ++ ".json"
                /\ filePath ld = pathJoin ledgerDir (l ++ ".json")).
Proof.
  intros H. pose proof (loadLedger_store lid ledgerDir d) as S.
  rewrite H in S. simpl in S. split; [exact S |]. subst d'.
  revert H. unfold loadLedger, pbind, pure, existsSync, interp, die.
  destruct (toString lid) as [l|]; simpl; try discriminate.
  destruct (readFile (l ++ ".json") d) as [c|] eqn:R; simpl; try discriminate.
  destruct (readJson ledgerDir (l ++ ".json") d) as [[v| |] d1] eqn:J; try discriminate.
  apply readJson_Ret in J.
  destruct (hardValidateLedgerRecord v) as [r| |] eqn:V; try discriminate.
  intros H. inversion H; subst; simpl.
  pose proof (hardValidate_Ret_same _ _ V). subst r.
  repeat split; auto. exists l. auto.
Qed.

(* ------------------------------------------------------------------ *)
(** ** Listing *)

(** C1.  A ledger directory with one file that does not parse, [bad.json],
    next to one valid record: [list] ends the process with the message of
    [readJson], whatever the collation, and returns no entry; the [catch]
    clause of the loop never runs, since [readJson] has already left the
    process.  Without the corrupt file the valid record is listed. *)
Theorem list_dies_on_corrupt_file (localeCompare : string -> string -> Z) :
  listLedgerEntries localeCompare "dir" Examples.dirMixed
  = (Exit ("failed to read or parse JSON: dir/bad.json" ++ nl ++ "Unexpected token"),
     Examples.dirMixed)
  /\ listLedgerEntries localeCompare "dir" Examples.dirA
     = (Ret [listEntry Examples.recA "dir/AAA.json"], Examples.dirA).
Proof. split; reflexivity. Qed.

(* ------------------------------------------------------------------ *)
(** ** Commands: the evaluations behind the divergences *)

(** C2.  [ulc update --lid AAA --add-note n1] on a record without notes: the
    note is pushed on the record in memory, but [changed] stays false, so
    the command reports that nothing changed and the stored file is the one
    it was, without the note. *)
Theorem add_note_alone_is_not_saved :
  (exists args rec1,
      parseArgs ["--lid"; "AAA"; "--add-note"; "n1"] = Ret args
      /\ applyEdits args Examples.recA = Ret (rec1, false)
      /\ get (get rec1 "last_state") "notes" = VArr [VStr "n1"] [])
  /\ ulcUpdate ["--lid"; "AAA"; "--add-note"; "n1"] Examples.today Examples.now
       Examples.dirA
     = (Ret {| warnings := []; stdout := noChanges |}, Examples.dirA).
Proof.
  split; [| reflexivity].
  eexists. eexists. repeat split; reflexivity.
Qed.

(** C3.  [ulc init --lid T01 --project P --summary Real] in an empty
    directory: the record written has the placeholder summary, not the text
    given with [--summary]; the [--goal] flag of the same command is
    honoured. *)
Theorem init_ignores_summary :
  (exists r d' v,
      ulcInit ["--lid"; "T01"; "--project"; "P"; "--summary"; "Real"]
        Examples.today Examples.today [] = (Ret r, d')
      /\ readFile "T01.json" d' = Some (Json v)
      /\ get v "summary" = VStr placeholderSummary)
  /\ (exists r d' v,
      ulcInit ["--lid"; "T01"; "--project"; "P"; "--goal"; "Ship"]
        Examples.today Examples.today [] = (Ret r, d')
      /\ readFile "T01.json" d' = Some (Json v)
      /\ get v "goals" = VArr [VStr "Ship"] []).
Proof.
  split; do 3 eexists; (split; [lazy; reflexivity | split; reflexivity]).
Qed.

(* ------------------------------------------------------------------ *)
(** ** Update: validation before the write *)

(** C10.  An update whose edits leave a record that fails hard validation
    ends the process with the validator's message, and the directory is the
    one it was: validation comes before the write. *)
Theorem failed_revalidation_leaves_store (argv : list string) (today now : string)
    (d : directory) (args : value) (dir : string) (ld : loaded) (rec1 : value)
    (msg : string) :
  parseArgs argv = Ret args ->
  truthy (get args "lid") = true ->
  ledgerDirOf args = Ret dir ->
  loadLedger (get args "lid") dir d = (Ret ld, d) ->
  applyEdits args (rec ld) = Ret (rec1, true) ->
  hardValidateLedgerRecord (stamp rec1 today now) = Exit msg ->
  ulcUpdate argv today now d = (Exit msg, d).
Proof.
  intros Hp Hl Hd Hld He Hv.
  unfold ulcUpdate, update, pbind, pure.
  rewrite Hp, Hl, Hd. simpl. rewrite Hld, He. simpl. rewrite Hv. reflexivity.
Qed.

Lemma failed_revalidation_leaves_store_witness :
  ulcUpdate ["--lid"; "AAA"; "--summary"; "a"; "--summary"; "b"]
    Examples.today Examples.now Examples.dirA
  = (Exit "ledger entry has invalid `summary`", Examples.dirA).
Proof.
  eapply failed_revalidation_leaves_store; try (lazy; reflexivity).
Defined.

(* ------------------------------------------------------------------ *)
(** ** Update: the edits *)

Lemma assign_assign (k : string) (x y : value) (ps : list (string * value)) :
  assign k y (assign k x ps) = assign k y ps.
Proof.
  induction ps as [|[k' z] ps IH]; simpl.
  - now rewrite String.eqb_refl.
  - destruct (String.eqb k k') eqn:E; simpl; rewrite E; [reflexivity | now rewrite IH].
Qed.

Lemma set_set (v : value) (k : string) (x y : value) :
  set (set v k x) k y = set v k y.
Proof. destruct v; simpl; auto; now rewrite assign_assign. Qed.



Lemma elems_arrayOrEmpty (v : value) :
  elems_of (arrayOrEmpty v) = elems_of v.
Proof. now destruct v. Qed.

Lemma holdsProps_arrayOrEmpty (v : value) : holdsProps (arrayOrEmpty v) = true.
Proof. now destruct v. Qed.

Lemma length_map_VStr (l : list string) :
  l <> [] -> negb (length (map VStr l) =? 0)%nat = true.
Proof. destruct l; [congruence | reflexivity]. Qed.

(** The removal block on a record that holds properties. *)
Lemma removeFrom_spec (field flag : string) (args rec : value) (changed : bool) :
  holdsProps rec = true ->
  toList (get args flag) <> [] ->
  removeFrom field flag args (rec, changed)
  = (set rec field
       (VArr (filter (fun g => negb (includes (toList (get args flag)) g))
                     (elems_of (get rec field))) []),
     changed
     || negb (length (filter (fun g => negb (includes (toList (get args flag)) g))
                             (elems_of (get rec field)))
              =? length (elems_of (get rec field)))%nat).
Proof.
  intros Hh Hne. unfold removeFrom.
  destruct (toList (get args flag)) as [|r rs] eqn:R; [congruence |].
  cbn [length Nat.eqb negb].
  rewrite !get_set_same by (rewrite ?holdsProps_set; exact Hh).
  rewrite set_set, elems_arrayOrEmpty. cbn [elems_of].
  destruct (length _ =? length _)%nat; simpl; [now rewrite orb_false_r | now rewrite orb_true_r].
Qed.



Section Edits.

(** A property of values that assigning a field does not change: being
    an object, holding properties. *)
Variable P : value -> bool.
Hypothesis P_set : forall v k x, P (set v k x) = P v.

(** Each edit of [update]: what it does to [changed], and the fields it
    leaves alone. *)
Lemma setSummary_changed (args : value) (st : patching) :
  snd (setSummary args st) = given args "summary" || snd st.
Proof. destruct st as [r c]. unfold setSummary, given. now destruct (truthy _). Qed.

Lemma setSummary_get (args : value) (st : patching) (k : string) :
  k <> "summary" -> get (fst (setSummary args st)) k = get (fst st) k.
Proof.
  intros Hk. destruct st as [r c]. unfold setSummary.
  destruct (truthy _); simpl; auto using get_set_other.
Qed.

Lemma setSummary_shape (args : value) (st : patching) :
  P (fst (setSummary args st)) = P (fst st).
Proof.
  destruct st as [r c]. unfold setSummary.
  destruct (truthy _); simpl; auto using P_set.
Qed.

Lemma setProject_changed (args : value) (st : patching) :
  snd (setProject args st) = given args "project" || snd st.
Proof. destruct st as [r c]. unfold setProject, given. now destruct (truthy _). Qed.

Lemma setProject_get (args : value) (st : patching) (k : string) :
  k <> "project" -> get (fst (setProject args st)) k = get (fst st) k.
Proof.
  intros Hk. destruct st as [r c]. unfold setProject.
  destruct (truthy _); simpl; auto using get_set_other.
Qed.

Lemma setProject_shape (args : value) (st : patching) :
  P (fst (setProject args st)) = P (fst st).
Proof.
  destruct st as [r c]. unfold setProject.
  destruct (truthy _); simpl; auto using P_set.
Qed.

Lemma length_nonEmpty {A : Type} (l : list A) :
  negb (length l =? 0)%nat = nonEmpty l.
Proof. now destruct l. Qed.

Lemma addTo_changed (field flag : string) (args : value) (st : patching) :
  snd (addTo field flag args st) = givenSome args flag || snd st.
Proof.
  destruct st as [r c]. unfold addTo, givenSome. rewrite length_nonEmpty.
  now destruct (nonEmpty _).
Qed.

Lemma addTo_get (field flag : string) (args : value) (st : patching) (k : string) :
  k <> field -> get (fst (addTo field flag args st)) k = get (fst st) k.
Proof.
  intros Hk. destruct st as [r c]. unfold addTo.
  destruct (negb _); simpl; auto using get_set_other.
Qed.

Lemma addTo_shape (field flag : string) (args : value) (st : patching) :
  P (fst (addTo field flag args st)) = P (fst st).
Proof.
  destruct st as [r c]. unfold addTo.
  destruct (negb _); simpl; auto using P_set.
Qed.

Lemma elems_pushAll (v : value) (xs : list value) :
  elems_of (pushAll (arrayOrEmpty v) xs) = (elems_of (arrayOrEmpty v) ++ xs)%list.
Proof. now destruct v. Qed.

(** After the add block the field holds the stored elements, then the added
    ones: nothing is deduplicated. *)
Lemma addTo_elems (field flag : string) (args : value) (st : patching) :
  holdsProps (fst st) = true ->
  elems_of (arrayOrEmpty (get (fst (addTo field flag args st)) field))
  = listBeforeRemoval field flag args (fst st).
Proof.
  intros Hh. destruct st as [r c]. unfold addTo, listBeforeRemoval. simpl in *.
  destruct (toList (get args flag)) as [|a l] eqn:E.
  - simpl. now rewrite app_nil_r.
  - cbn [length Nat.eqb negb fst]. rewrite get_set_same by exact Hh.
    rewrite elems_arrayOrEmpty. apply elems_pushAll.
Qed.

Lemma length_filter_all {A : Type} (f : A -> bool) (l : list A) :
  negb (length (filter f l) =? length l)%nat = existsb (fun x => negb (f x)) l.
Proof.
  induction l as [|x l IH]; simpl; auto.
  destruct (f x); simpl; auto.
  pose proof (filter_length_le f l) as Hle.
  destruct (length (filter f l) =? S (length l))%nat eqn:E; auto.
  apply Nat.eqb_eq in E. lia.
Qed.

Lemma removesSome_nil (l : list value) : removesSome [] l = false.
Proof. unfold removesSome. induction l; simpl; auto. Qed.

Lemma removeFrom_changed (field flag : string) (args : value) (st : patching) :
  holdsProps (fst st) = true ->
  snd (removeFrom field flag args st)
  = removesSome (toList (get args flag)) (elems_of (arrayOrEmpty (get (fst st) field)))
    || snd st.
Proof.
  intros Hh. destruct st as [r c]. cbn [fst snd] in *.
  destruct (toList (get args flag)) as [|a l] eqn:E.
  - unfold removeFrom. rewrite E, removesSome_nil. reflexivity.
  - rewrite removeFrom_spec by (auto; rewrite E; discriminate).
    cbn [snd]. rewrite length_filter_all, E, elems_arrayOrEmpty. unfold removesSome.
    rewrite orb_comm. f_equal.
    induction (elems_of (get r field)) as [|x xs IH]; cbn [existsb]; auto.
    now rewrite negb_involutive, IH.
Qed.

Lemma removeFrom_get (field flag : string) (args : value) (st : patching) (k : string) :
  k <> field -> get (fst (removeFrom field flag args st)) k = get (fst st) k.
Proof.
  intros Hk. destruct st as [r c]. unfold removeFrom.
  destruct (negb (length (toList (get args flag)) =? 0)%nat); simpl; auto.
  destruct (negb _); simpl; now rewrite !get_set_other.
Qed.

Lemma removeFrom_shape (field flag : string) (args : value) (st : patching) :
  P (fst (removeFrom field flag args st)) = P (fst st).
Proof.
  destruct st as [r c]. unfold removeFrom.
  destruct (negb (length (toList (get args flag)) =? 0)%nat); simpl; auto.
  destruct (negb _); simpl; now rewrite !P_set.
Qed.

Lemma holdsProps_objectOrEmpty (v : value) : holdsProps (objectOrEmpty v) = true.
Proof.
  unfold objectOrEmpty.
  destruct v as [| |b|n|s|l ps|ps]; cbn [typeofObject]; rewrite ?andb_false_r;
    reflexivity.
Qed.

Lemma setAskWhenUncertain_changed (args : value) (st st' : patching) :
  setAskWhenUncertain args st = Ret st' ->
  snd st' = given args "ask-when-uncertain" || snd st.
Proof.
  destruct st as [r c]. unfold setAskWhenUncertain, given.
  destruct (truthy _).
  - destruct (parseYesNo _ _); simpl; try discriminate. now intros [= <-].
  - now intros [= <-].
Qed.

Lemma setAskWhenUncertain_get (args : value) (st st' : patching) (k : string) :
  setAskWhenUncertain args st = Ret st' ->
  k <> "style" -> get (fst st') k = get (fst st) k.
Proof.
  destruct st as [r c]. unfold setAskWhenUncertain.
  destruct (truthy _).
  - destruct (parseYesNo _ _); simpl; try discriminate.
    intros [= <-] Hk. simpl. now rewrite !get_set_other.
  - now intros [= <-].
Qed.

Lemma setAskWhenUncertain_shape (args : value) (st st' : patching) :
  setAskWhenUncertain args st = Ret st' ->
  P (fst st') = P (fst st).
Proof.
  destruct st as [r c]. unfold setAskWhenUncertain.
  destruct (truthy _).
  - destruct (parseYesNo _ _); simpl; try discriminate.
    intros [= <-]. simpl. now rewrite !P_set.
  - now intros [= <-].
Qed.

Lemma addNotes_none (args : value) (st : patching) :
  toList (get args "add-note") = [] -> addNotes args st = st.
Proof. intros E. destruct st as [r c]. unfold addNotes. now rewrite E. Qed.

Lemma addNotes_get (args : value) (st : patching) (k : string) :
  k <> "last_state" -> get (fst (addNotes args st)) k = get (fst st) k.
Proof.
  intros Hk. destruct st as [r c]. unfold addNotes.
  destruct (negb _); simpl; auto.
  destruct (pushNewNotesFlagged _ _) as [final addedAny].
  destruct addedAny; simpl; now rewrite !get_set_other.
Qed.

Lemma addNotes_shape (args : value) (st : patching) :
  P (fst (addNotes args st)) = P (fst st).
Proof.
  destruct st as [r c]. unfold addNotes.
  destruct (negb _); simpl; auto.
  destruct (pushNewNotesFlagged _ _) as [final addedAny].
  destruct addedAny; simpl; now rewrite !P_set.
Qed.

Lemma stamp_get (rec : value) (today now k : string) :
  k <> "last_state" -> k <> "modified_at" -> get (stamp rec today now) k = get rec k.
Proof. intros H1 H2. unfold stamp. now rewrite !get_set_other. Qed.

Lemma stamp_shape (rec : value) (today now : string) :
  P (stamp rec today now) = P rec.
Proof. unfold stamp. now rewrite !P_set. Qed.

Lemma applyEdits_get (args rec rec1 : value) (changed : bool) (k : string) :
  applyEdits args rec = Ret (rec1, changed) ->
  ~ In k edited -> get rec1 k = get rec k.
Proof.
  unfold applyEdits, edited. intros H Hk. simpl in Hk.
  destruct (setAskWhenUncertain _ _) as [st7| |] eqn:A; try discriminate.
  simpl in H. injection H as H.
  replace rec1 with (fst (addNotes args st7)) by now rewrite H.
  rewrite addNotes_get by intuition congruence.
  rewrite (setAskWhenUncertain_get _ _ _ k A) by intuition congruence.
  unfold removeConstraints, addConstraints, removeGoals, addGoals.
  rewrite !removeFrom_get, !addTo_get, removeFrom_get, addTo_get by intuition congruence.
  rewrite setProject_get, setSummary_get by intuition congruence.
  reflexivity.
Qed.

Lemma applyEdits_shape (args rec rec1 : value) (changed : bool) :
  applyEdits args rec = Ret (rec1, changed) -> P rec1 = P rec.
Proof.
  unfold applyEdits. intros H.
  destruct (setAskWhenUncertain _ _) as [st7| |] eqn:A; try discriminate.
  simpl in H. injection H as H.
  replace rec1 with (fst (addNotes args st7)) by now rewrite H.
  rewrite addNotes_shape, (setAskWhenUncertain_shape _ _ _ A).
  unfold removeConstraints, addConstraints, removeGoals, addGoals.
  now rewrite !removeFrom_shape, !addTo_shape, removeFrom_shape,
    addTo_shape, setProject_shape, setSummary_shape.
Qed.

End Edits.

(** The record holds properties at every stage of the edits. *)
Ltac holds_props :=
  repeat first [ rewrite (removeFrom_shape holdsProps holdsProps_set)
               | rewrite (addTo_shape holdsProps holdsProps_set)
               | rewrite (setProject_shape holdsProps holdsProps_set)
               | rewrite (setSummary_shape holdsProps holdsProps_set) ];
  cbn [fst]; assumption.

(** The [changed] flag after the edits, when no note is added. *)
Lemma applyEdits_changed (args rec rec1 : value) (changed : bool) :
  holdsProps rec = true ->
  toList (get args "add-note") = [] ->
  applyEdits args rec = Ret (rec1, changed) ->
  changed
  = given args "summary" || given args "project"
    || givenSome args "add-goal" || givenSome args "add-constraint"
    || given args "ask-when-uncertain"
    || removesSome (toList (get args "remove-goal"))
         (listBeforeRemoval "goals" "add-goal" args rec)
    || removesSome (toList (get args "remove-constraint"))
         (listBeforeRemoval "constraints" "add-constraint" args rec).
Proof.
  unfold applyEdits. intros Hh Hn H.
  destruct (setAskWhenUncertain _ _) as [st7| |] eqn:A; try discriminate.
  simpl in H. rewrite addNotes_none in H by exact Hn. injection H as H. subst st7.
  apply setAskWhenUncertain_changed in A. cbn [snd] in A. rewrite A.
  unfold removeConstraints, addConstraints, removeGoals, addGoals.
  rewrite removeFrom_changed by holds_props.
  rewrite addTo_elems by holds_props.
  rewrite addTo_changed.
  rewrite removeFrom_changed by holds_props.
  rewrite addTo_elems by holds_props.
  rewrite addTo_changed, setProject_changed, setSummary_changed. cbn [snd].
  unfold listBeforeRemoval.
  rewrite removeFrom_get, addTo_get, !setProject_get, !setSummary_get by discriminate.
  cbn [fst].
  repeat match goal with
         | |- context [given ?a ?f] => generalize (given a f); intro
         | |- context [givenSome ?a ?f] => generalize (givenSome a f); intro
         | |- context [removesSome ?a ?f] => generalize (removesSome a f); intro
         end.
  repeat match goal with b : bool |- _ => destruct b end; reflexivity.
Qed.

(** C4 (as amended).  When no note is added: [changed] is true exactly when
    a summary, a project, a goal or constraint to add, or an
    ask-when-uncertain value was given (whether or not it differs from what
    is stored), or when a removal takes an element out of the goals or the
    constraints.  When [changed] is false the command reports that nothing
    changed and the directory is the one it was. *)
Theorem update_changed_flag (argv : list string) (today now : string) (d : directory)
    (args : value) (dir : string) (ld : loaded) (rec1 : value) (changed : bool) :
  parseArgs argv = Ret args ->
  truthy (get args "lid") = true ->
  ledgerDirOf args = Ret dir ->
  loadLedger (get args "lid") dir d = (Ret ld, d) ->
  toList (get args "add-note") = [] ->
  applyEdits args (rec ld) = Ret (rec1, changed) ->
  changed
  = given args "summary" || given args "project"
    || givenSome args "add-goal" || givenSome args "add-constraint"
    || given args "ask-when-uncertain"
    || removesSome (toList (get args "remove-goal"))
         (listBeforeRemoval "goals" "add-goal" args (rec ld))
    || removesSome (toList (get args "remove-constraint"))
         (listBeforeRemoval "constraints" "add-constraint" args (rec ld))
  /\ (changed = false ->
      ulcUpdate argv today now d
      = (Ret {| warnings := []; stdout := noChanges |}, d)).
Proof.
  intros Hp Hl Hd Hld Hn He. split.
  - apply loadLedger_Ret in Hld. destruct Hld as (_ & _ & Hv & _).
    apply hardValidate_holdsProps in Hv.
    now apply (applyEdits_changed args (rec ld) rec1).
  - intros ->. unfold ulcUpdate, update, pbind, pure.
    rewrite Hp, Hl, Hd. simpl. rewrite Hld, He. reflexivity.
Qed.

Lemma update_changed_flag_witness :
  ulcUpdate ["--lid"; "AAA"; "--remove-goal"; "Z"] Examples.today Examples.now
    Examples.dirA
  = (Ret {| warnings := []; stdout := noChanges |}, Examples.dirA).
Proof.
  refine (proj2 (update_changed_flag
                   ["--lid"; "AAA"; "--remove-goal"; "Z"] Examples.today Examples.now
                   Examples.dirA
                   (VObj [("_", VArr [] []); ("lid", VStr "AAA"); ("remove-goal", VStr "Z")])
                   defaultLedgerDir
                   {| rec := Examples.recA; fileName := "AAA.json";
                      filePath := pathJoin defaultLedgerDir "AAA.json" |}
                   Examples.recA false _ _ _ _ _ _) _);
    reflexivity.
Defined.

(** C4, as stated, fails: [--summary S] on a record whose summary is
    already [S] leaves the record as it was, yet [changed] is true and the
    file is written again, now with [last_state] and [modified_at]. *)
Lemma same_summary_counts_as_change :
  exists args,
    parseArgs ["--lid"; "AAA"; "--summary"; "S"] = Ret args
    /\ get Examples.recA "summary" = get args "summary"
    /\ applyEdits args Examples.recA = Ret (Examples.recA, true)
    /\ snd (ulcUpdate ["--lid"; "AAA"; "--summary"; "S"] Examples.today Examples.now
              Examples.dirA)
       = [("AAA.json", Json (stamp Examples.recA Examples.today Examples.now))]
    /\ get (stamp Examples.recA Examples.today Examples.now) "modified_at"
       = VStr Examples.now.
Proof.
  eexists. split; [reflexivity |]. repeat split; reflexivity.
Qed.

(* ------------------------------------------------------------------ *)
(** ** Formatter *)

Lemma interp_toString (v : value) :
  interp v = match toString v with Some s => Ret s | None => Throw TypeError end.
Proof. reflexivity. Qed.

Lemma pushBullets_texts (xs : list value) (lines : list string) :
  pushBullets lines xs
  = match texts xs with
    | Some ss => Ret (lines ++ map bullet ss)%list
    | None => Throw TypeError
    end.
Proof.
  revert lines. induction xs as [|x xs IH]; intros lines; simpl.
  - now rewrite app_nil_r.
  - unfold interp. destruct (toString x) as [s|]; simpl; [| reflexivity].
    rewrite IH. destruct (texts xs) as [ss|]; [| reflexivity].
    unfold push. now rewrite <- app_assoc.
Qed.

Lemma fold_left_push (items lines : list string) :
  fold_left (fun lines i => push lines ("- " ++ i)) items lines
  = (lines ++ map bullet items)%list.
Proof.
  revert lines. induction items as [|i items IH]; intros lines; simpl.
  - now rewrite app_nil_r.
  - rewrite IH. unfold push. now rewrite <- app_assoc.
Qed.

(** A value that is not truthy is a primitive, and converts to text. *)
Lemma falsy_toString (v : value) :
  truthy v = false -> exists s, toString v = Some s.
Proof.
  destruct v as [| |[]|[z|[]]|s|l ps|ps]; simpl; try discriminate; eauto.
Qed.

(** The goals and the constraints blocks. *)
Lemma section_step (lines : list string) (title : string) (xs : list value) :
  (if nonEmpty xs
   then lines' <- pushBullets (push lines title) xs ;; Ret (push lines' "")
   else Ret lines)
  = match texts xs with
    | Some ss => Ret (lines ++ sectionWhen (nonEmpty xs) title ss)%list
    | None => Throw TypeError
    end.
Proof.
  destruct xs as [|x xs].
  - simpl. now rewrite app_nil_r.
  - cbn [nonEmpty]. rewrite pushBullets_texts.
    destruct (texts (x :: xs)) as [ss|]; [| reflexivity].
    unfold sectionWhen, section, push. cbn [bind].
    now rewrite <- !app_assoc.
Qed.

(** The last-known-state block. *)
Lemma lastState_step (lines : list string) (asOf : value) (ns : list value) :
  (if nonEmpty ns || truthy asOf
   then
     lines1 <- (if truthy asOf
                then s <- interp asOf ;;
                     Ret (push (push lines "Last Known State:") ("- As of: " ++ s))
                else Ret (push lines "Last Known State:")) ;;
     lines2 <- pushBullets lines1 ns ;;
     Ret (push lines2 "")
   else Ret lines)
  = match toString asOf, texts ns with
    | Some a, Some ss =>
        Ret (lines
             ++ sectionWhen (truthy asOf || nonEmpty ns) "Last Known State:"
                  ((if truthy asOf then [("As of: " ++ a)%string] else []) ++ ss))%list
    | _, _ => Throw TypeError
    end.
Proof.
  rewrite (orb_comm (nonEmpty ns)). unfold interp.
  destruct (truthy asOf) eqn:T.
  - cbn [orb]. destruct (toString asOf) as [a|]; [| reflexivity]. cbn [bind].
    rewrite pushBullets_texts. destruct (texts ns) as [ss|]; [| reflexivity].
    cbn [bind]. unfold sectionWhen, section, push, bullet. cbn [map app].
    now rewrite <- !app_assoc.
  - destruct (falsy_toString _ T) as [a ->]. cbn [orb].
    destruct ns as [|n ns].
    + simpl. now rewrite app_nil_r.
    + cbn [nonEmpty bind]. rewrite pushBullets_texts.
      destruct (texts (n :: ns)) as [ss|]; [| reflexivity].
      cbn [bind]. unfold sectionWhen, section, push. cbn [app].
      now rewrite <- !app_assoc.
Qed.

(** C8.  The text of a context packet is its layout, joined by line feeds:
    the header and the summary; the Goals section exactly when there are
    goals and the Constraints section exactly when there are constraints,
    each with one bullet per entry and a blank line after it; the Style
    section; the Last Known State section exactly when [as_of] is non-empty
    (truthy) or there are notes, with the [As of:] bullet only when [as_of]
    is non-empty, then one bullet per note; the Instructions section and the
    footer.  The formatter throws only when one of the values cannot be
    converted to text. *)
Theorem format_text_layout (ctx : ContextPacket) :
  formatText ctx
  = match textLayout ctx with
    | Some lines => Ret (String.concat nl lines)
    | None => Throw TypeError
    end.
Proof.
  unfold formatText, textLayout.
  rewrite (interp_toString (lid (meta ctx))).
  destruct (toString (lid (meta ctx))) as [l|]; [| reflexivity]. cbn [bind].
  rewrite (interp_toString (project (meta ctx))).
  destruct (toString (project (meta ctx))) as [p|]; [| reflexivity]. cbn [bind].
  rewrite (interp_toString (created_at (meta ctx))).
  destruct (toString (created_at (meta ctx))) as [c|]; [| reflexivity]. cbn [bind].
  rewrite (interp_toString (summary ctx)).
  destruct (toString (summary ctx)) as [s|]; [| reflexivity]. cbn [bind].
  rewrite !length_nonEmpty.
  rewrite section_step.
  destruct (texts (goals ctx)) as [gs|]; [| reflexivity]. cbn [bind].
  rewrite section_step.
  destruct (texts (constraints ctx)) as [cs|]; [| reflexivity]. cbn [bind].
  rewrite (interp_toString (tone (style ctx))).
  destruct (toString (tone (style ctx))) as [t|]; [| reflexivity]. cbn [bind].
  rewrite (interp_toString (format (style ctx))).
  destruct (toString (format (style ctx))) as [f|]; [| reflexivity]. cbn [bind].
  rewrite lastState_step.
  destruct (toString (as_of (last_known_state ctx))) as [a|]; [| reflexivity].
  destruct (texts (notes (last_known_state ctx))) as [ns|]; [| reflexivity].
  cbn [bind]. rewrite fold_left_push. unfold push, bullet.
  do 2 f_equal. rewrite <- !app_assoc. reflexivity.
Qed.

(* ------------------------------------------------------------------ *)
(** ** Update: what is written *)

Lemma persist_VObj (ps : list (string * value)) :
  persist (VObj ps) = VObj (persistFields ps).
Proof.
  reflexivity.
Qed.

Lemma lookup_persistFields (k : string) (ps : list (string * value)) :
  lookup k ps <> VUndef -> lookup k (persistFields ps) = persist (lookup k ps).
Proof.
  induction ps as [|[k' x] ps IH]; simpl; [congruence |].
  destruct (String.eqb k k') eqn:E.
  - intros Hx. destruct x; try congruence; simpl; now rewrite E.
  - intros Hx. destruct x; simpl; rewrite ?E; auto.
Qed.

Lemma isObject_set (v : value) (k : string) (x : value) :
  isObject (set v k x) = isObject v.
Proof. now destruct v. Qed.

Lemma jsonDirectory_readFile (name : string) (d : directory) (v : value) :
  jsonDirectory d = true -> readFile name d = Some (Json v) -> isJson v = true.
Proof.
  unfold jsonDirectory. induction d as [|[n c] d IH]; simpl; [discriminate |].
  intros H. apply andb_prop in H as [Hc Hd].
  destruct (String.eqb name n); auto.
  intros [= ->]. exact Hc.
Qed.

(** A value of [JSON.parse] with a property is a plain object. *)
Lemma isJson_isObject (v : value) (k : string) :
  isJson v = true -> truthy (get v k) = true -> isObject v = true.
Proof.
  destruct v as [| |b|n|s|l ps|ps]; simpl; try discriminate; auto.
  intros H. apply andb_prop in H as [_ Hp]. destruct ps; discriminate.
Qed.

Lemma truthy_defined (v : value) : truthy v = true -> v <> VUndef.
Proof. now destruct v. Qed.

(** A field of a plain object reads back, after a write, as its value does. *)
Lemma get_persist (v : value) (k : string) :
  isObject v = true -> get v k <> VUndef -> get (persist v) k = persist (get v k).
Proof.
  destruct v; try discriminate. intros _. rewrite persist_VObj. simpl.
  apply lookup_persistFields.
Qed.

(** The two ways [update] ends: without a write, or with the stamped record
    written over the loaded file. *)
Lemma update_cases (args : value) (today now : string) (d : directory) :
  (snd (update args today now d) = d
   /\ (forall r, fst (update args today now d) = Ret r ->
                 r = {| warnings := []; stdout := noChanges |}))
  \/ (exists dir ld rec1,
        ledgerDirOf args = Ret dir
        /\ loadLedger (get args "lid") dir d = (Ret ld, d)
        /\ applyEdits args (rec ld) = Ret (rec1, true)
        /\ hardValidateLedgerRecord (stamp rec1 today now) = Ret (stamp rec1 today now)
        /\ update args today now d
           = (Ret {| warnings := softValidateLedgerRecord (stamp rec1 today now);
                     stdout := "Updated: " ++ filePath ld ++ nl |},
              writeFile (fileName ld) (Json (persist (stamp rec1 today now))) d)).
Proof.
  unfold update, pbind, pure, die.
  destruct (truthy (get args "lid")); simpl; [| left; split; [reflexivity | discriminate]].
  destruct (ledgerDirOf args) as [dir| |]; simpl;
    try (left; split; [reflexivity | discriminate]).
  pose proof (loadLedger_store (get args "lid") dir d) as S.
  destruct (loadLedger (get args "lid") dir d) as [[ld| |] d1] eqn:L; simpl in S; subst d1;
    try (left; split; [reflexivity | discriminate]).
  destruct (applyEdits args (rec ld)) as [[rec1 changed]| |] eqn:E; simpl;
    try (left; split; [reflexivity | discriminate]).
  destruct changed; simpl; [| left; split; [reflexivity | now intros r [= <-]]].
  destruct (hardValidateLedgerRecord (stamp rec1 today now)) as [r| |] eqn:V; simpl;
    try (left; split; [reflexivity | discriminate]).
  right. exists dir, ld, rec1. pose proof (hardValidate_Ret_same _ _ V). subst r.
  repeat split; auto.
Qed.





(* ------------------------------------------------------------------ *)
(** ** Command line *)

Lemma holdsProps_addFlag (out : value) (key v : string) :
  holdsProps (addFlag out key v) = holdsProps out.
Proof.
  unfold addFlag. destruct (nullish (get out key)); [apply holdsProps_set |].
  destruct (get out key); apply holdsProps_set.
Qed.

Lemma holdsProps_addPositional (out : value) (a : string) :
  holdsProps (addPositional out a) = holdsProps out.
Proof.
  unfold addPositional. destruct (get out "_"); auto using holdsProps_set.
Qed.

Lemma get_addFlag_other (out : value) (key v k : string) :
  k <> key -> get (addFlag out key v) k = get out k.
Proof.
  intros Hk. unfold addFlag. destruct (nullish (get out key)); [now apply get_set_other |].
  destruct (get out key); now apply get_set_other.
Qed.

Lemma get_addPositional_other (out : value) (a k : string) :
  k <> "_" -> get (addPositional out a) k = get out k.
Proof.
  intros Hk. unfold addPositional. destruct (get out "_"); auto using get_set_other.
Qed.

(** A further text [v] for a flag that read as the texts [vs]. *)
Lemma get_addFlag_same (out : value) (key v : string) (vs : list string) :
  holdsProps out = true ->
  get out key = flagReading vs ->
  get (addFlag out key v) key = flagReading (vs ++ [v]).
Proof.
  intros Hh Hg. unfold addFlag. rewrite Hg.
  destruct vs as [|x [|y vs]]; simpl; rewrite get_set_same by exact Hh; auto.
  now rewrite map_app.
Qed.

Lemma isSwitch_not (k : string) :
  k <> "json" -> k <> "force" -> forall key, isSwitch key = true -> k <> key.
Proof.
  intros Hj Hf key H <-. unfold isSwitch in H.
  apply orb_prop in H as [H | H]; apply String.eqb_eq in H; congruence.
Qed.

Lemma parseArgsFrom_reading (k : string) (argv : list string) :
  k <> "_" -> k <> "json" -> k <> "force" ->
  forall (out args : value) (vs : list string),
    holdsProps out = true ->
    get out k = flagReading vs ->
    parseArgsFrom argv out = Ret args ->
    get args k = flagReading (vs ++ flagValues k argv)
    /\ forallb isFlagText (flagValues k argv) = true.
Proof.
  intros H_ Hj Hf.
  remember (length argv) as n eqn:Hn.
  assert (Hle : length argv <= n) by lia. clear Hn.
  revert argv Hle. induction n as [|n IH]; intros argv Hle out args vs Hh Hg Hp.
  - destruct argv; [| simpl in Hle; lia].
    simpl in *. injection Hp as <-. now rewrite app_nil_r.
  - destruct argv as [|a rest].
    { simpl in *. injection Hp as <-. now rewrite app_nil_r. }
    cbn [parseArgsFrom flagValues] in *. cbn [length] in Hle.
    destruct (negb (startsWith "--" a)).
    + apply (IH rest) with (out := addPositional out a); auto; try lia.
      * now rewrite holdsProps_addPositional.
      * now rewrite get_addPositional_other.
    + fold (isSwitch (slice2 a)) in Hp. destruct (isSwitch (slice2 a)) eqn:Sw.
      * apply (IH rest) with (out := set out (slice2 a) (VBool true)); auto; try lia.
        -- now rewrite holdsProps_set.
        -- rewrite get_set_other; auto. now apply isSwitch_not.
      * destruct rest as [|v rest']; [discriminate |]. cbn [length] in Hle.
        destruct (String.eqb v "" || startsWith "--" v) eqn:Bad; [discriminate |].
        assert (Ht : isFlagText v = true).
        { unfold isFlagText. apply orb_false_elim in Bad as [-> ->]. reflexivity. }
        destruct (String.eqb_spec (slice2 a) k) as [E | Hne].
        -- destruct (IH rest') with (out := addFlag out (slice2 a) v) (args := args)
             (vs := (vs ++ [v])%list) as [G F]; auto; try lia.
           ++ now rewrite holdsProps_addFlag.
           ++ rewrite E. apply get_addFlag_same; auto.
           ++ rewrite <- app_assoc in G. split; [exact G |]. simpl. now rewrite Ht.
        -- apply (IH rest') with (out := addFlag out (slice2 a) v); auto; try lia.
           ++ now rewrite holdsProps_addFlag.
           ++ rewrite get_addFlag_other; auto.
Qed.

Lemma valueFlags_plain (k : string) :
  In k valueFlags -> k <> "_" /\ k <> "json" /\ k <> "force".
Proof.
  unfold valueFlags. simpl. intros H.
  repeat (destruct H as [<- | H]; [repeat split; discriminate |]). destruct H.
Qed.

(** X1.  After [parseArgs], a flag that takes a value reads as the texts the
    command line gives it: nothing when it is absent, its text when it is
    given once, the array of its texts, in order, when it is repeated; and
    each text is non-empty and does not start with [--]. *)
Theorem parseArgs_flag_reading (argv : list string) (args : value) (k : string) :
  parseArgs argv = Ret args ->
  In k valueFlags ->
  get args k = flagReading (flagValues k argv)
  /\ forallb isFlagText (flagValues k argv) = true.
Proof.
  intros Hp Hk. destruct (valueFlags_plain k Hk) as (H_ & Hj & Hf).
  apply (parseArgsFrom_reading k argv H_ Hj Hf (VObj [("_", VArr [] [])]) args []); auto.
  simpl. destruct (String.eqb_spec k "_"); [contradiction | reflexivity].
Qed.

Lemma parseArgs_flag_reading_witness :
  get (VObj [ ("_", VArr [VStr "x"] []); ("add-goal", VArr [VStr "a"; VStr "b"] []);
              ("json", VBool true); ("lid", VStr "AAA") ])
      "add-goal"
  = VArr [VStr "a"; VStr "b"] [].
Proof.
  exact (proj1 (parseArgs_flag_reading
                  ["x"; "--add-goal"; "a"; "--json"; "--lid"; "AAA"; "--add-goal"; "b"]
                  _ "add-goal" eq_refl
                  (or_intror (or_intror (or_intror (or_intror (or_intror (or_intror
                     (or_intror (or_introl eq_refl)))))))))).
Defined.

(** X2.  [parseArgs] never throws: it ends the process at the first flag that is
    not followed by a value (the command line ends there, or the next text
    is empty or starts with [--]), and returns otherwise. *)
Theorem parseArgs_outcome (argv : list string) :
  match firstMissing argv with
  | Some key => parseArgs argv = Exit ("missing value for --" ++ key)
  | None => exists args, parseArgs argv = Ret args
  end.
Proof.
  unfold parseArgs. generalize (VObj [("_", VArr [] [])]).
  remember (length argv) as n eqn:Hn.
  assert (Hle : length argv <= n) by lia. clear Hn.
  revert argv Hle. induction n as [|n IH]; intros argv Hle out.
  - destruct argv; [| simpl in Hle; lia]. simpl. eauto.
  - destruct argv as [|a rest]; [simpl; eauto |].
    cbn [parseArgsFrom firstMissing]. cbn [length] in Hle.
    destruct (negb (startsWith "--" a)); [apply IH; lia |].
    fold (isSwitch (slice2 a)). destruct (isSwitch (slice2 a)); [apply IH; lia |].
    destruct rest as [|v rest']; [reflexivity |]. cbn [length] in Hle.
    unfold isFlagText.
    destruct (String.eqb v ""); [reflexivity |].
    destruct (startsWith "--" v); [reflexivity |]. simpl. apply IH. lia.
Qed.

(* ------------------------------------------------------------------ *)
(** ** Update: the edit blocks *)

Lemma parseYesNo_boolean (v : value) (flagName : string) (r : value) :
  nullish v = false -> parseYesNo v flagName = Ret r -> exists b, r = VBool b.
Proof.
  unfold parseYesNo, die. intros ->.
  destruct (interp v) as [s| |]; simpl; try discriminate.
  repeat match goal with
         | |- context [if ?c then _ else _] => destruct c
         end; try discriminate; intros [= <-]; eauto.
Qed.

Lemma truthy_not_nullish (v : value) : truthy v = true -> nullish v = false.
Proof. now destruct v. Qed.

(** X3.  The [ask-when-uncertain] block: when the flag is given and the block
    completes, [style.ask_when_uncertain] is a boolean, [changed] is true and
    the fields other than [style] are untouched; the block ends the process
    on a text that is none of yes, true, 1, no, false, 0. *)
Theorem ask_when_uncertain_sets_boolean (args rec rec1 : value) (changed changed1 : bool) :
  holdsProps rec = true ->
  given args "ask-when-uncertain" = true ->
  setAskWhenUncertain args (rec, changed) = Ret (rec1, changed1) ->
  (exists b, get (get rec1 "style") "ask_when_uncertain" = VBool b)
  /\ changed1 = true
  /\ (forall k, k <> "style" -> get rec1 k = get rec k)
  /\ (forall k, k <> "ask_when_uncertain" ->
                truthy (get rec "style") && typeofObject (get rec "style") = true ->
                get (get rec1 "style") k = get (get rec "style") k).
Proof.
  unfold given, setAskWhenUncertain. intros Hh Hg. rewrite Hg.
  destruct (parseYesNo _ _) as [r| |] eqn:Y; simpl; try discriminate.
  intros [= <- <-].
  destruct (parseYesNo_boolean _ _ _ (truthy_not_nullish _ Hg) Y) as [b ->].
  rewrite (get_set_same rec "style") by exact Hh.
  rewrite get_set_same by (rewrite holdsProps_set; exact Hh).
  repeat split.
  - exists b. apply get_set_same, holdsProps_objectOrEmpty.
  - intros k Hk. now rewrite !get_set_other.
  - intros k Hk Ho. rewrite get_set_other by exact Hk.
    unfold objectOrEmpty. now rewrite Ho.
Qed.

Lemma ask_when_uncertain_sets_boolean_witness :
  exists b, get (get (set (set Examples.recA "style" emptyObject) "style"
                        (set emptyObject "ask_when_uncertain" (VBool false)))
                     "style") "ask_when_uncertain" = VBool b.
Proof.
  exact (proj1 (ask_when_uncertain_sets_boolean
                  (VObj [("ask-when-uncertain", VStr " No ")]) Examples.recA _ false _
                  eq_refl eq_refl eq_refl)).
Defined.



Lemma includes_In_text (l : list value) (s : string) :
  includes l (VStr s) = true <-> In (VStr s) l.
Proof.
  unfold includes. rewrite existsb_exists. split.
  - intros (y & Hy & E). destruct y; try discriminate.
    apply String.eqb_eq in E. now subst.
  - intros H. exists (VStr s). split; auto. simpl. apply String.eqb_refl.
Qed.

Lemma includes_app (l l' : list value) (x : value) :
  includes (l ++ l') x = includes l x || includes l' x.
Proof. unfold includes. apply existsb_app. Qed.

(** Notes are only ever appended: the stored ones stay, in their place. *)
Lemma pushNewNotes_prefix (adds notes : list value) :
  exists extra,
    pushNewNotes notes adds = (notes ++ extra)%list
    /\ (forall n, In n extra -> In n adds)
    /\ (forall n, In n extra -> includes notes n = false).
Proof.
  revert notes. induction adds as [|a adds IH]; intros notes.
  - exists []. simpl. rewrite app_nil_r. repeat split; intros n [].
  - unfold pushNewNotes in *. cbn [fold_left].
    destruct (includes notes a) eqn:I; cbn [negb].
    + destruct (IH notes) as (extra & E & Hin & Hnew).
      exists extra. repeat split; auto. intros n Hn. right. auto.
    + destruct (IH (notes ++ [a])%list) as (extra & E & Hin & Hnew).
      exists (a :: extra). rewrite E, <- app_assoc. repeat split.
      * intros n [<- | Hn]; [now left | right; auto].
      * intros n [<- | Hn]; auto.
        specialize (Hnew n Hn). rewrite includes_app in Hnew.
        now apply orb_false_elim in Hnew.
Qed.

Lemma pushNewNotes_includes (adds notes : list value) (n : value) :
  includes notes n = true -> includes (pushNewNotes notes adds) n = true.
Proof.
  intros H. destruct (pushNewNotes_prefix adds notes) as (extra & -> & _).
  rewrite includes_app, H. reflexivity.
Qed.

Lemma pushNewNotes_adds (adds notes : list value) (s : string) :
  In (VStr s) adds -> In (VStr s) (pushNewNotes notes adds).
Proof.
  revert notes. induction adds as [|a adds IH]; intros notes; [intros [] |].
  intros [-> | H].
  - apply includes_In_text. unfold pushNewNotes. cbn [fold_left].
    apply (pushNewNotes_includes adds).
    destruct (includes notes (VStr s)) eqn:I; cbn [negb]; auto.
    rewrite includes_app. simpl. rewrite String.eqb_refl. now rewrite orb_true_r.
  - unfold pushNewNotes. cbn [fold_left]. apply IH. exact H.
Qed.

Lemma pushNewNotes_NoDup (adds notes : list value) :
  forallb isString adds = true ->
  NoDup notes -> NoDup (pushNewNotes notes adds).
Proof.
  revert notes. induction adds as [|a adds IH]; intros notes Hs Hn; [exact Hn |].
  simpl in Hs. apply andb_prop in Hs as [Ha Hs].
  unfold pushNewNotes. cbn [fold_left]. apply IH; auto.
  destruct a as [| | | |s| |]; try discriminate.
  destruct (includes notes (VStr s)) eqn:I; cbn [negb]; auto.
  rewrite <- (rev_involutive (notes ++ [VStr s])). apply NoDup_rev.
  rewrite rev_app_distr. simpl. constructor.
  - rewrite <- in_rev. intros Hin. apply includes_In_text in Hin. congruence.
  - now apply NoDup_rev.
Qed.

(** The second loop finds every text already there. *)
Lemma pushNewNotesFlagged_none (adds notes : list value) :
  (forall n, In n adds -> includes notes n = true) ->
  pushNewNotesFlagged notes adds = (notes, false).
Proof.
  unfold pushNewNotesFlagged. generalize false.
  induction adds as [|a adds IH]; intros b H; [reflexivity |].
  cbn [fold_left]. rewrite (H a (or_introl eq_refl)). cbn [negb].
  apply IH. intros n Hn. apply H. now right.
Qed.

Lemma withElems_withElems (v : value) (l l' : list value) :
  withElems (withElems v l) l' = withElems v l'.
Proof. now destruct v. Qed.

Lemma elems_withElems (v : value) (l : list value) :
  isArray v = true -> elems_of (withElems v l) = l.
Proof. now destruct v. Qed.

Lemma isArray_arrayOrEmpty (v : value) : isArray (arrayOrEmpty v) = true.
Proof. now destruct v. Qed.

Lemma texts_are_strings (l : list string) : forallb isString (map VStr l) = true.
Proof. induction l; simpl; auto. Qed.

(** The add-note block with texts: the record after it, and [changed]. *)
Lemma addNotes_texts (args rec : value) (changed : bool) (adds : list string) :
  holdsProps rec = true ->
  toList (get args "add-note") = map VStr adds ->
  adds <> [] ->
  addNotes args (rec, changed)
  = (set rec "last_state"
       (set (objectOrEmpty (get rec "last_state")) "notes"
          (withElems (arrayOrEmpty (get (objectOrEmpty (get rec "last_state")) "notes"))
             (pushNewNotes (storedNotes rec) (map VStr adds)))),
     changed).
Proof.
  intros Hh Ha Hne. unfold addNotes. rewrite Ha, length_map_VStr by exact Hne.
  rewrite (get_set_same rec "last_state") by exact Hh.
  rewrite set_set. rewrite get_set_same by exact Hh.
  rewrite get_set_same by apply holdsProps_objectOrEmpty.
  rewrite elems_withElems by apply isArray_arrayOrEmpty.
  fold (storedNotes rec).
  rewrite pushNewNotesFlagged_none.
  - rewrite withElems_withElems, !set_set. reflexivity.
  - intros n Hn. apply in_map_iff in Hn as (s & <- & Hs).
    apply includes_In_text, pushNewNotes_adds, in_map, Hs.
Qed.

(** X5.  The [add-note] block on a record object, with the texts [adds]: the
    notes of the record are the stored ones followed by some of the texts
    given, those that were not stored; each text given is among them; and
    if no stored note was repeated, none is afterwards. *)
Theorem add_note_appends_new_texts (ps : list (string * value)) (args : value)
    (changed : bool) (adds : list string) :
  toList (get args "add-note") = map VStr adds ->
  adds <> [] ->
  (exists extra,
      notesOf (fst (addNotes args (VObj ps, changed))) = (storedNotes (VObj ps) ++ extra)%list
      /\ (forall n, In n extra -> In n (map VStr adds) /\ ~ In n (storedNotes (VObj ps))))
  /\ (forall a, In a adds -> In (VStr a) (notesOf (fst (addNotes args (VObj ps, changed)))))
  /\ (NoDup (storedNotes (VObj ps)) ->
      NoDup (notesOf (fst (addNotes args (VObj ps, changed))))).
Proof.
  intros Ha Hne. rewrite addNotes_texts with (adds := adds) by auto.
  unfold notesOf. cbn [fst]. rewrite get_set_same by reflexivity.
  rewrite get_set_same by apply holdsProps_objectOrEmpty.
  rewrite elems_withElems by apply isArray_arrayOrEmpty.
  split; [| split].
  - destruct (pushNewNotes_prefix (map VStr adds) (storedNotes (VObj ps)))
      as (extra & E & Hin & Hnew).
    exists extra. split; [exact E |]. intros n Hn. split; [auto |].
    specialize (Hnew n Hn). specialize (Hin n Hn).
    apply in_map_iff in Hin as (s & <- & _). intros Hs.
    apply includes_In_text in Hs. congruence.
  - intros a Hin. apply pushNewNotes_adds, in_map, Hin.
  - apply pushNewNotes_NoDup, texts_are_strings.
Qed.

Lemma add_note_appends_new_texts_witness :
  In (VStr "n1")
     (notesOf (fst (addNotes (VObj [("add-note", VArr [VStr "n1"; VStr "n1"] [])])
                      (Examples.recA, false)))).
Proof.
  refine (proj1 (proj2 (add_note_appends_new_texts _
                          (VObj [("add-note", VArr [VStr "n1"; VStr "n1"] [])])
                          false ["n1"; "n1"] eq_refl _)) "n1" _).
  - discriminate.
  - now left.
Defined.

(** X6.  The [add-note] block never sets [changed]: the loop that would set it
    runs after a first loop has already pushed every new text. *)
Theorem add_note_leaves_changed (args rec : value) (changed : bool) (adds : list string) :
  holdsProps rec = true ->
  toList (get args "add-note") = map VStr adds ->
  snd (addNotes args (rec, changed)) = changed.
Proof.
  intros Hh Ha. destruct adds as [|a adds].
  - now rewrite addNotes_none.
  - rewrite addNotes_texts with (adds := a :: adds); auto. discriminate.
Qed.

Lemma add_note_leaves_changed_witness :
  snd (addNotes (VObj [("add-note", VStr "n1")]) (Examples.recA, false)) = false.
Proof.
  exact (add_note_leaves_changed (VObj [("add-note", VStr "n1")]) Examples.recA false
           ["n1"] eq_refl eq_refl).
Defined.

(* ------------------------------------------------------------------ *)
(** ** Update: the flags it reads *)

Lemma applyEdits_same_flags (args args' rec : value) :
  (forall f, In f editFlags -> get args' f = get args f) ->
  applyEdits args' rec = applyEdits args rec.
Proof.
  intros H. unfold applyEdits, setSummary, setProject, addGoals, removeGoals,
    addConstraints, removeConstraints, addTo, removeFrom, setAskWhenUncertain, addNotes.
  rewrite (H "summary"), (H "project"), (H "add-goal"), (H "remove-goal"),
    (H "add-constraint"), (H "remove-constraint"), (H "ask-when-uncertain"),
    (H "add-note") by (unfold editFlags; simpl; tauto).
  reflexivity.
Qed.

(** X7.  [update] reads the command line through [--lid], [--ledger-dir] and the
    eight edit flags only: two command lines that agree on them have the same
    effect.  The flags [--tone] and [--format], which the help text lists
    for [update], are not among them. *)
Theorem update_reads_only_its_flags (args args' : value) (today now : string)
    (d : directory) :
  (forall f, In f ("lid" :: "ledger-dir" :: editFlags) -> get args' f = get args f) ->
  update args' today now d = update args today now d.
Proof.
  intros H. unfold update, ledgerDirOf, pbind, pure.
  rewrite (H "lid"), (H "ledger-dir") by (simpl; tauto).
  destruct (negb (truthy (get args "lid"))); [reflexivity |].
  destruct (if truthy (get args "ledger-dir") then _ else _) as [dir| |]; try reflexivity.
  destruct (loadLedger (get args "lid") dir d) as [[ld| |] d1]; try reflexivity.
  rewrite (applyEdits_same_flags args args') by (intros f Hf; apply H; simpl; tauto).
  reflexivity.
Qed.

Lemma update_reads_only_its_flags_witness :
  update (VObj [("_", VArr [] []); ("lid", VStr "AAA"); ("tone", VStr "Warm");
                ("format", VStr "Long")])
    Examples.today Examples.now Examples.dirA
  = (Ret {| warnings := []; stdout := noChanges |}, Examples.dirA).
Proof.
  rewrite (update_reads_only_its_flags (VObj [("_", VArr [] []); ("lid", VStr "AAA")])).
  - reflexivity.
  - intros f Hf. simpl in Hf.
    repeat (destruct Hf as [<- | Hf]; [reflexivity |]). destruct Hf.
Defined.


(* ------------------------------------------------------------------ *)
(** ** Update: the directory after it *)

Lemma ulcUpdate_cases (argv : list string) (today now : string) (d : directory) :
  (snd (ulcUpdate argv today now d) = d
   /\ (forall r, fst (ulcUpdate argv today now d) = Ret r ->
                 r = {| warnings := []; stdout := noChanges |}))
  \/ (exists args dir ld rec1,
        parseArgs argv = Ret args
        /\ ledgerDirOf args = Ret dir
        /\ loadLedger (get args "lid") dir d = (Ret ld, d)
        /\ applyEdits args (rec ld) = Ret (rec1, true)
        /\ hardValidateLedgerRecord (stamp rec1 today now) = Ret (stamp rec1 today now)
        /\ ulcUpdate argv today now d
           = (Ret {| warnings := softValidateLedgerRecord (stamp rec1 today now);
                     stdout := "Updated: " ++ filePath ld ++ nl |},
              writeFile (fileName ld) (Json (persist (stamp rec1 today now))) d)).
Proof.
  unfold ulcUpdate, pbind, pure.
  destruct (parseArgs argv) as [args| |] eqn:P;
    try (left; split; [reflexivity | discriminate]).
  destruct (update_cases args today now d)
    as [H | (dir & ld & rec1 & H)]; [left; exact H | right].
  exists args, dir, ld, rec1. tauto.
Qed.



Lemma writeFile_names (name : string) (c c0 : content) (d : directory) :
  readFile name d = Some c0 -> map fst (writeFile name c d) = map fst d.
Proof.
  induction d as [|[n c'] d IH]; simpl; [discriminate |].
  destruct (String.eqb name n); simpl; [reflexivity |].
  intros H. now rewrite IH.
Qed.

(** X9.  An update writes at most the file of the record it names (a ledger id
    without path separators names the file [<lid>.json]): the other files
    keep their content, and no file appears or disappears. *)
Theorem update_touches_only_its_file (argv : list string) (today now : string)
    (d : directory) (args : value) (l : string) :
  parseArgs argv = Ret args ->
  toString (get args "lid") = Some l ->
  isPlainName l = true ->
  (forall name, name <> l ++ ".json" ->
                readFile name (snd (ulcUpdate argv today now d)) = readFile name d)
  /\ map fst (snd (ulcUpdate argv today now d)) = map fst d.
Proof.
  intros Hp Hl _.
  destruct (ulcUpdate_cases argv today now d)
    as [[E _] | (args' & dir & ld & rec1 & Hp' & _ & Hld & _ & _ & E)];
    rewrite E; [split; reflexivity |].
  rewrite Hp in Hp'. injection Hp' as <-.
  apply loadLedger_Ret in Hld. destruct Hld as (_ & Hr & _ & (l' & Hl' & Hn & _)).
  rewrite Hl in Hl'. injection Hl' as <-. cbn [snd]. rewrite Hn in *. split.
  - intros name Hne. now apply readFile_writeFile_other.
  - now apply writeFile_names with (c0 := Json (rec ld)).
Qed.

Lemma update_touches_only_its_file_witness :
  map fst (snd (ulcUpdate ["--lid"; "AAA"; "--summary"; "New"] Examples.today
                  Examples.now Examples.dirMixed))
  = ["bad.json"; "AAA.json"].
Proof.
  exact (proj2 (update_touches_only_its_file ["--lid"; "AAA"; "--summary"; "New"]
                  Examples.today Examples.now Examples.dirMixed _ "AAA"
                  eq_refl eq_refl eq_refl)).
Defined.

Lemma loadLedger_valid (lid : value) (l dir : string) (d : directory) (v : value) :
  toString lid = Some l ->
  readFile (l ++ ".json") d = Some (Json v) ->
  hardValidateLedgerRecord v = Ret v ->
  loadLedger lid dir d
  = (Ret {| rec := v; fileName := l ++ ".json"; filePath := pathJoin dir (l ++ ".json") |},
     d).
Proof.
  intros Hl Hr Hv.
  unfold loadLedger, pbind, pure, existsSync, readJson, ptry, readAndParse, interp.
  rewrite Hl. cbv beta iota zeta. rewrite Hr. cbv beta iota zeta.
  cbn [negb]. cbv beta iota zeta. rewrite Hr, Hv. reflexivity.
Qed.

Lemma update_Ret_loaded (args : value) (today now : string) (d d' : directory)
    (r : report) :
  update args today now d = (Ret r, d') ->
  exists dir ld,
    ledgerDirOf args = Ret dir /\ loadLedger (get args "lid") dir d = (Ret ld, d).
Proof.
  unfold update, pbind, pure, die.
  destruct (truthy (get args "lid")); simpl; [| discriminate].
  destruct (ledgerDirOf args) as [dir| |]; simpl; try discriminate.
  pose proof (loadLedger_store (get args "lid") dir d) as S.
  destruct (loadLedger (get args "lid") dir d) as [[ld| |] d1] eqn:L; simpl in S; subst d1;
    try discriminate.
  intros _. eauto.
Qed.

(** A record object whose [created_at] is a string and which passes hard
    validation passes it as it reads back after a write. *)
Lemma hardValidate_persist (v : value) (s : string) :
  isObject v = true ->
  get v "created_at" = VStr s ->
  hardValidateLedgerRecord v = Ret v ->
  hardValidateLedgerRecord (persist v) = Ret (persist v).
Proof.
  intros Ho Hc Hv. apply hardValidate_Ret_iff in Hv. destruct Hv as (M & L & P & S).
  assert (Hreq : forall k, In k required -> get (persist v) k = get v k).
  { intros k Hk.
    assert (Hs : exists t, get v k = VStr t).
    { simpl in Hk. destruct Hk as [<- | [<- | [<- | [<- | []]]]].
      - destruct (get v "lid"); try discriminate; eauto.
      - destruct (get v "project"); try discriminate; eauto.
      - eauto.
      - destruct (get v "summary"); try discriminate; eauto. }
    destruct Hs as [t Ht]. rewrite get_persist; auto; rewrite Ht; [reflexivity | discriminate]. }
  apply hardValidate_Ret_iff. repeat split.
  - apply missingFields_nil. intros k Hk. unfold presentNonEmpty.
    rewrite Hreq by exact Hk. now apply (proj1 (missingFields_nil v) M).
  - rewrite Hreq by (simpl; auto). exact L.
  - rewrite Hreq by (simpl; auto). exact P.
  - rewrite Hreq by (simpl; auto). exact S.
Qed.

(** X10.  After an update that completes, on a record whose [created_at] is a
    string, the record can be loaded again: what is written passes hard
    validation as it reads back. *)
Theorem update_keeps_record_loadable (argv : list string) (today now : string)
    (d d' : directory) (args : value) (dir l s : string) (r : report) :
  jsonDirectory d = true ->
  parseArgs argv = Ret args ->
  ledgerDirOf args = Ret dir ->
  toString (get args "lid") = Some l ->
  createdAtOf (l ++ ".json") d = Some (VStr s) ->
  ulcUpdate argv today now d = (Ret r, d') ->
  exists ld, loadLedger (get args "lid") dir d' = (Ret ld, d').
Proof.
  intros Hj Hp Hd Hl Hc Hu.
  destruct (ulcUpdate_cases argv today now d)
    as [[E _] | (args' & dir' & ld & rec1 & Hp' & Hd' & Hld & He & Hv & E)].
  - rewrite Hu in E. cbn [snd] in E. subst d'.
    unfold ulcUpdate, pbind, pure in Hu. rewrite Hp in Hu.
    apply update_Ret_loaded in Hu. destruct Hu as (dir' & ld & Hd' & Hld).
    rewrite Hd in Hd'. injection Hd' as <-. eauto.
  - rewrite Hp in Hp'. injection Hp' as <-. rewrite Hd in Hd'. injection Hd' as <-.
    rewrite Hu in E. injection E as _ ->.
    pose proof (loadLedger_Ret _ _ _ _ _ Hld) as (_ & Hr & Hv0 & (l' & Hl' & Hn & _)).
    rewrite Hl in Hl'. injection Hl' as <-.
    unfold createdAtOf in Hc. rewrite <- Hn, Hr in Hc. injection Hc as Hc.
    pose proof (jsonDirectory_readFile _ _ _ Hj Hr) as Hjson.
    assert (Ho : isObject (stamp rec1 today now) = true).
    { rewrite (stamp_shape isObject isObject_set),
        (applyEdits_shape isObject isObject_set _ _ _ _ He).
      apply (isJson_isObject _ "lid"); auto.
      apply hardValidate_Ret_iff in Hv0. destruct Hv0 as (M & _).
      apply (proj1 (missingFields_nil _) M). simpl. auto. }
    assert (Hc1 : get (stamp rec1 today now) "created_at" = VStr s).
    { rewrite stamp_get by discriminate. rewrite <- Hc.
      apply (applyEdits_get _ _ _ _ _ He). unfold edited. simpl. intuition discriminate. }
    eexists. apply loadLedger_valid with (l := l); auto.
    + rewrite <- Hn. apply readFile_writeFile_same.
    + now apply hardValidate_persist with (s := s).
Qed.

Lemma update_keeps_record_loadable_witness :
  exists ld,
    loadLedger (VStr "AAA") defaultLedgerDir
      (snd (ulcUpdate ["--lid"; "AAA"; "--summary"; "New"] Examples.today Examples.now
              Examples.dirA))
    = (Ret ld, snd (ulcUpdate ["--lid"; "AAA"; "--summary"; "New"] Examples.today
                      Examples.now Examples.dirA)).
Proof.
  eapply (update_keeps_record_loadable ["--lid"; "AAA"; "--summary"; "New"]
            Examples.today Examples.now Examples.dirA _
            (VObj [("_", VArr [] []); ("lid", VStr "AAA"); ("summary", VStr "New")])
            defaultLedgerDir "AAA" "2025-01-01"); lazy; reflexivity.
Defined.

Lemma isArray_set (v : value) (k : string) (x : value) :
  isArray (set v k x) = isArray v.
Proof. now destruct v. Qed.

Lemma isArray_objectOrEmpty (v : value) : isArray (objectOrEmpty v) = isArray v.
Proof.
  unfold objectOrEmpty.
  destruct v as [| |b|n|s|l ps|ps]; cbn [typeofObject]; rewrite ?andb_false_r;
    reflexivity.
Qed.

Lemma isObject_objectOrEmpty (v : value) :
  isArray v = false -> isObject (objectOrEmpty v) = true.
Proof.
  unfold objectOrEmpty.
  destruct v as [| |b|n|s|l ps|ps]; cbn [typeofObject]; rewrite ?andb_false_r;
    try reflexivity; discriminate.
Qed.

Lemma addNotes_last_state (args : value) (st : patching) :
  holdsProps (fst st) = true ->
  isArray (get (fst (addNotes args st)) "last_state")
  = isArray (get (fst st) "last_state").
Proof.
  destruct st as [r c]. cbn [fst]. intros Hh. unfold addNotes.
  destruct (negb _); [| reflexivity].
  destruct (pushNewNotesFlagged _ _) as [final addedAny].
  destruct addedAny; cbn [fst];
    rewrite get_set_same by (rewrite ?holdsProps_set; exact Hh);
    rewrite isArray_set;
    rewrite get_set_same by (rewrite ?holdsProps_set; exact Hh);
    rewrite isArray_set;
    rewrite get_set_same by exact Hh;
    apply isArray_objectOrEmpty.
Qed.

Lemma applyEdits_last_state (args rec rec1 : value) (changed : bool) :
  holdsProps rec = true ->
  applyEdits args rec = Ret (rec1, changed) ->
  isArray (get rec1 "last_state") = isArray (get rec "last_state").
Proof.
  unfold applyEdits. intros Hh H.
  destruct (setAskWhenUncertain _ _) as [st7| |] eqn:A; try discriminate.
  simpl in H. injection H as H.
  replace rec1 with (fst (addNotes args st7)) by now rewrite H.
  rewrite addNotes_last_state.
  - rewrite (setAskWhenUncertain_get _ _ _ "last_state" A) by discriminate.
    unfold removeConstraints, addConstraints, removeGoals, addGoals.
    now rewrite !removeFrom_get, !addTo_get, removeFrom_get, addTo_get,
      setProject_get, setSummary_get by discriminate.
  - rewrite (setAskWhenUncertain_shape holdsProps holdsProps_set _ _ _ A).
    unfold removeConstraints, addConstraints, removeGoals, addGoals.
    now rewrite !(removeFrom_shape holdsProps holdsProps_set),
      !(addTo_shape holdsProps holdsProps_set),
      (removeFrom_shape holdsProps holdsProps_set),
      (addTo_shape holdsProps holdsProps_set),
      (setProject_shape holdsProps holdsProps_set),
      (setSummary_shape holdsProps holdsProps_set).
Qed.

Lemma stamp_last_state (rec : value) (today now : string) :
  holdsProps rec = true ->
  get (stamp rec today now) "last_state"
  = set (set (objectOrEmpty (get rec "last_state")) "as_of" (VStr today)) "notes"
      (arrayOrEmpty
         (get (set (objectOrEmpty (get rec "last_state")) "as_of" (VStr today)) "notes")).
Proof.
  intros Hh. unfold stamp. rewrite get_set_other by discriminate.
  rewrite (get_set_same rec "last_state") by exact Hh.
  rewrite get_set_same by (rewrite ?holdsProps_set; exact Hh).
  rewrite get_set_same by (rewrite ?holdsProps_set; exact Hh).
  reflexivity.
Qed.

Lemma isArray_persist (v : value) : isArray (persist v) = isArray v.
Proof. destruct v as [| |b|[z|neg]|s|l ps|ps]; reflexivity. Qed.

(** X11.  An update that writes stamps what it writes: the stored record has
    [modified_at] equal to the reading of the clock, and, unless the record
    held an array as [last_state], its [last_state.as_of] is the date of
    the day and its [last_state.notes] is an array. *)
Theorem update_stamps_record (argv : list string) (today now : string)
    (d d' : directory) (args : value) (l : string) (v0 : value) (r : report) :
  jsonDirectory d = true ->
  parseArgs argv = Ret args ->
  toString (get args "lid") = Some l ->
  readFile (l ++ ".json") d = Some (Json v0) ->
  ulcUpdate argv today now d = (Ret r, d') ->
  stdout r <> noChanges ->
  exists v,
    readFile (l ++ ".json") d' = Some (Json v)
    /\ get v "modified_at" = VStr now
    /\ (isArray (get v0 "last_state") = false ->
        get (get v "last_state") "as_of" = VStr today
        /\ isArray (get (get v "last_state") "notes") = true).
Proof.
  intros Hj Hp Hl Hr0 Hu Hs.
  destruct (ulcUpdate_cases argv today now d)
    as [[_ E] | (args' & dir & ld & rec1 & Hp' & _ & Hld & He & _ & E)].
  - rewrite Hu in E. rewrite (E r eq_refl) in Hs. now destruct Hs.
  - rewrite Hp in Hp'. injection Hp' as <-. rewrite Hu in E. injection E as _ ->.
    pose proof (loadLedger_Ret _ _ _ _ _ Hld) as (_ & Hr & Hv0 & (l' & Hl' & Hn & _)).
    rewrite Hl in Hl'. injection Hl' as <-. rewrite Hn in *.
    rewrite Hr0 in Hr. injection Hr as Hr. 
    pose proof (jsonDirectory_readFile _ _ _ Hj Hr0) as Hjson.
    assert (Ht : truthy (get v0 "lid") = true).
    { rewrite Hr. apply hardValidate_Ret_iff in Hv0. destruct Hv0 as (M & _).
      apply (proj1 (missingFields_nil _) M). simpl. auto. }
    assert (Ho0 : isObject (rec ld) = true).
    { rewrite <- Hr. now apply (isJson_isObject _ "lid"). }
    assert (Hh0 : holdsProps (rec ld) = true) by now destruct (rec ld).
    assert (Hh1 : holdsProps rec1 = true).
    { now rewrite (applyEdits_shape holdsProps holdsProps_set _ _ _ _ He). }
    assert (Ho : isObject (stamp rec1 today now) = true).
    { now rewrite (stamp_shape isObject isObject_set),
        (applyEdits_shape isObject isObject_set _ _ _ _ He). }
    exists (persist (stamp rec1 today now)).
    split; [apply readFile_writeFile_same |]. split.
    + rewrite get_persist; auto; unfold stamp; rewrite get_set_same;
        rewrite ?holdsProps_set; auto; discriminate.
    + intros Ha.
      assert (Ha1 : isArray (get rec1 "last_state") = false).
      { rewrite (applyEdits_last_state _ _ _ _ Hh0 He). now rewrite <- Hr. }
      rewrite get_persist; auto.
      2:{ rewrite stamp_last_state by exact Hh1.
          destruct (objectOrEmpty (get rec1 "last_state")) eqn:O; try discriminate;
            pose proof (holdsProps_objectOrEmpty (get rec1 "last_state")) as HO;
            rewrite O in HO; discriminate. }
      rewrite stamp_last_state by exact Hh1.
      pose proof (isObject_objectOrEmpty _ Ha1) as HO.
      destruct (objectOrEmpty (get rec1 "last_state")) as [| | | | | |ops] eqn:O;
        try discriminate.
      split.
      * rewrite get_persist; try reflexivity.
        -- rewrite get_set_other, get_set_same by (reflexivity || discriminate).
           reflexivity.
        -- rewrite get_set_other, get_set_same by (reflexivity || discriminate).
           discriminate.
      * rewrite get_persist; try reflexivity.
        -- rewrite get_set_same by reflexivity.
           rewrite isArray_persist. apply isArray_arrayOrEmpty.
        -- rewrite get_set_same by reflexivity.
           now destruct (arrayOrEmpty _) eqn:AE;
             pose proof (isArray_arrayOrEmpty
                           (get (set (VObj ops) "as_of" (VStr today)) "notes")) as HA;
             rewrite AE in HA.
Qed.

Lemma update_stamps_record_witness :
  exists v,
    readFile "AAA.json"
      (snd (ulcUpdate ["--lid"; "AAA"; "--summary"; "New"] Examples.today Examples.now
              Examples.dirA))
    = Some (Json v)
    /\ get v "modified_at" = VStr Examples.now
    /\ (isArray (get Examples.recA "last_state") = false ->
        get (get v "last_state") "as_of" = VStr Examples.today
        /\ isArray (get (get v "last_state") "notes") = true).
Proof.
  eapply (update_stamps_record ["--lid"; "AAA"; "--summary"; "New"]
            Examples.today Examples.now Examples.dirA _
            (VObj [("_", VArr [] []); ("lid", VStr "AAA"); ("summary", VStr "New")])
            "AAA" Examples.recA);
    try reflexivity; [lazy; reflexivity | lazy; discriminate].
Defined.

(* ------------------------------------------------------------------ *)
(** ** The directory stays well formed *)




Lemma init_cases (args : value) (today created : string) (d : directory) :
  (snd (init args today created d) = d
   /\ forall r, fst (init args today created d) <> Ret r)
  \/ (exists dir l,
        ledgerDirOf args = Ret dir
        /\ toString (get args "lid") = Some l
        /\ truthy (get args "lid") = true
        /\ truthy (get args "project") = true
        /\ (readFile (l ++ ".json") d = None \/ truthy (get args "force") = true)
        /\ init args today created d
           = (Ret {| warnings := []; stdout := "Created: " ++ pathJoin dir (l ++ ".json") ++ nl |},
              writeFile (l ++ ".json")
                (Json (persist (initLedgerEntry (get args "lid") (get args "project")
                                  (get args "summary")
                                  (toArrayOrUndefined (get args "goal"))
                                  (toArrayOrUndefined (get args "constraint"))
                                  today created)))
                d)).
Proof.
  unfold init, pbind, pure, die, existsSync, interp.
  destruct (truthy (get args "lid")); cbn [negb];
    [| left; split; [reflexivity | discriminate]].
  destruct (truthy (get args "project")); cbn [negb];
    [| left; split; [reflexivity | discriminate]].
  destruct (ledgerDirOf args) as [dir| |];
    try (left; split; [reflexivity | discriminate]).
  destruct (toString (get args "lid")) as [l|];
    try (left; split; [reflexivity | discriminate]).
  cbv beta iota zeta.
  destruct (readFile (l ++ ".json") d) as [c|] eqn:R; cbn [andb].
  - destruct (truthy (get args "force")) eqn:F; cbn [negb];
      [| left; split; [reflexivity | discriminate]].
    right. exists dir, l. unfold writeFileSync. repeat split; auto.
  - right. exists dir, l. unfold writeFileSync. repeat split; auto.
Qed.



(* ------------------------------------------------------------------ *)
(** ** Init *)

Lemma startsWith_slice2 (a : string) :
  startsWith "--" a = true -> a = "--" ++ slice2 a.
Proof.
  unfold startsWith. destruct a as [|c1 [|c2 r]]; cbn [prefix slice2]; try discriminate.
  - destruct (ascii_dec "-" c1); discriminate.
  - destruct (ascii_dec "-" c1) as [<- |]; [| discriminate].
    destruct (ascii_dec "-" c2) as [<- |]; [reflexivity | discriminate].
Qed.

Lemma parseArgsFrom_no_force (argv : list string) :
  ~ In "--force" argv ->
  forall out args, parseArgsFrom argv out = Ret args -> get args "force" = get out "force".
Proof.
  remember (length argv) as n eqn:Hn.
  assert (Hle : length argv <= n) by lia. clear Hn.
  revert argv Hle. induction n as [|n IH]; intros argv Hle Hno out args Hp.
  - destruct argv; [| simpl in Hle; lia]. simpl in Hp. now injection Hp as <-.
  - destruct argv as [|a rest]; [simpl in Hp; now injection Hp as <- |].
    cbn [parseArgsFrom] in Hp. cbn [length] in Hle.
    assert (Hrest : ~ In "--force" rest) by (intros H; apply Hno; now right).
    destruct (negb (startsWith "--" a)) eqn:Sa.
    + rewrite (IH rest) with (out := addPositional out a) by (auto; lia).
      now apply get_addPositional_other.
    + apply negb_false_iff in Sa.
      destruct (String.eqb_spec (slice2 a) "force") as [Ef | Ef].
      * exfalso. apply Hno. left. rewrite (startsWith_slice2 a Sa), Ef. reflexivity.
      * destruct (String.eqb (slice2 a) "json" || false) eqn:Sw.
        -- rewrite (IH rest) with (out := set out (slice2 a) (VBool true)) by (auto; lia).
           apply get_set_other. congruence.
        -- destruct rest as [|v rest']; [discriminate |]. cbn [length] in Hle.
           destruct (String.eqb v "" || startsWith "--" v); [discriminate |].
           rewrite (IH rest') with (out := addFlag out (slice2 a) v); auto; try lia.
           ++ apply get_addFlag_other. congruence.
           ++ intros H. apply Hrest. now right.
Qed.

(** X13.  Without [--force] on the command line, [init] overwrites nothing: every
    file of the directory keeps its content, however the command ends. *)
Theorem init_without_force_keeps_files (argv : list string) (today created : string)
    (d : directory) (name : string) (c : content) :
  ~ In "--force" argv ->
  readFile name d = Some c ->
  readFile name (snd (ulcInit argv today created d)) = Some c.
Proof.
  intros Hno Hr. unfold ulcInit, pbind, pure.
  destruct (parseArgs argv) as [args| |] eqn:P; try exact Hr.
  apply parseArgsFrom_no_force in P; [| exact Hno]. simpl in P.
  destruct (init_cases args today created d)
    as [[E _] | (dir & l & _ & _ & _ & _ & [Hnone | Hf] & E)]; rewrite E; cbn [snd].
  - exact Hr.
  - rewrite readFile_writeFile_other; [exact Hr |]. intros ->. congruence.
  - rewrite P in Hf. discriminate.
Qed.

Lemma init_without_force_keeps_files_witness :
  readFile "AAA.json"
    (snd (ulcInit ["--lid"; "AAA"; "--project"; "Q"] Examples.today Examples.today
            Examples.dirA))
  = Some (Json Examples.recA).
Proof.
  apply init_without_force_keeps_files; [| reflexivity].
  simpl. intuition discriminate.
Defined.

Lemma init_record_reads (l p : string) (summary goals constraints : value)
    (today created : string) :
  get (persist (initLedgerEntry (VStr l) (VStr p) summary goals constraints today created))
      "lid" = VStr l
  /\ get (persist (initLedgerEntry (VStr l) (VStr p) summary goals constraints today created))
         "project" = VStr p
  /\ get (persist (initLedgerEntry (VStr l) (VStr p) summary goals constraints today created))
         "created_at" = VStr created
  /\ get (persist (initLedgerEntry (VStr l) (VStr p) summary goals constraints today created))
         "summary" = VStr placeholderSummary.
Proof. repeat split; reflexivity. Qed.

(** X14.  A record [init] has created, for a ledger id without path separators
    and of trimmed length at least 3 and a project that is not blank, can
    be loaded: it passes hard validation, with the [lid] and [project] given,
    the date of the day as [created_at] and the placeholder summary. *)
Theorem init_then_load (args : value) (today created : string) (d d' : directory)
    (r : report) (l p dir : string) :
  get args "lid" = VStr l ->
  get args "project" = VStr p ->
  isPlainName l = true ->
  3 <= String.length (trim l) ->
  trim p <> "" ->
  created <> "" ->
  ledgerDirOf args = Ret dir ->
  init args today created d = (Ret r, d') ->
  exists ld,
    loadLedger (VStr l) dir d' = (Ret ld, d')
    /\ get (rec ld) "lid" = VStr l
    /\ get (rec ld) "project" = VStr p
    /\ get (rec ld) "created_at" = VStr created
    /\ get (rec ld) "summary" = VStr placeholderSummary.
Proof.
  intros Hl Hp _ Hlen Hpr Hcr Hd Hi.
  assert (Ed : d' = snd (init args today created d)) by now rewrite Hi.
  destruct (init_cases args today created d)
    as [[_ E] | (dir' & l' & _ & Hl' & _ & _ & _ & E)].
  - rewrite Hi in E. now destruct (E r).
  - rewrite Hl in Hl'. injection Hl' as <-.
    rewrite E in Ed. cbn [snd] in Ed. rewrite Hl, Hp in Ed. clear E Hi.
    destruct (init_record_reads l p (get args "summary")
                (toArrayOrUndefined (get args "goal"))
                (toArrayOrUndefined (get args "constraint")) today created)
      as (Rl & Rp & Rc & Rs).
    exists {| rec := persist (initLedgerEntry (VStr l) (VStr p) (get args "summary")
                              (toArrayOrUndefined (get args "goal"))
                              (toArrayOrUndefined (get args "constraint")) today created);
              fileName := l ++ ".json";
              filePath := pathJoin dir (l ++ ".json") |}.
    split; [| cbn [rec]; repeat split; assumption].
    subst d'.
    apply loadLedger_valid with (l := l); [reflexivity | apply readFile_writeFile_same |].
    apply hardValidate_Ret_iff. rewrite Rl, Rp, Rs. repeat split.
    + apply missingFields_nil. intros k Hk. unfold presentNonEmpty. simpl in Hk.
      destruct Hk as [<- | [<- | [<- | [<- | []]]]].
      * rewrite Rl. destruct l; [simpl in Hlen; lia | reflexivity].
      * rewrite Rp. destruct p; [now destruct Hpr | reflexivity].
      * rewrite Rc. destruct created; [now destruct Hcr | reflexivity].
      * rewrite Rs. reflexivity.
    + cbn [invalidLid]. apply Nat.ltb_ge. exact Hlen.
    + cbn [invalidText]. now apply blank_spec.
Qed.

Lemma init_then_load_witness :
  exists ld,
    loadLedger (VStr "T01") defaultLedgerDir
      (snd (ulcInit ["--lid"; "T01"; "--project"; "P"] Examples.today Examples.today []))
    = (Ret ld,
       snd (ulcInit ["--lid"; "T01"; "--project"; "P"] Examples.today Examples.today []))
    /\ get (rec ld) "lid" = VStr "T01"
    /\ get (rec ld) "project" = VStr "P"
    /\ get (rec ld) "created_at" = VStr Examples.today
    /\ get (rec ld) "summary" = VStr placeholderSummary.
Proof.
  eapply (init_then_load
            (VObj [("_", VArr [] []); ("lid", VStr "T01"); ("project", VStr "P")])
            Examples.today Examples.today [] _ _ "T01" "P" defaultLedgerDir);
    try reflexivity; try (vm_compute; lia); try discriminate; lazy; reflexivity.
Defined.

(* ------------------------------------------------------------------ *)
(** ** Listing: directories whose records all parse *)


(** The loop body on one file, by what the file holds. *)
Lemma listOne_cases (ledgerDir : string) (entries : list value) (f : string)
    (d : directory) :
  listOne ledgerDir entries f d
  = match readFile f d with
    | Some (Json v) =>
        (Ret (entries
              ++ (if truthy (get v "lid") && truthy (get v "project")
                  then [listEntry v (pathJoin ledgerDir f)] else []))%list,
         d)
    | Some (NotJson e) =>
        (Exit ("failed to read or parse JSON: " ++ pathJoin ledgerDir f ++ nl ++ e), d)
    | None =>
        (Exit ("failed to read or parse JSON: " ++ pathJoin ledgerDir f ++ nl
               ++ "ENOENT: no such file or directory"), d)
    end.
Proof.
  unfold listOne, ptry, pbind, readJson, ptry, readAndParse, pure, die.
  destruct (readFile f d) as [[e|v]|]; try reflexivity.
  destruct (truthy (get v "lid")), (truthy (get v "project")); cbn [negb orb andb];
    rewrite ?app_nil_r; reflexivity.
Qed.

Lemma listLoop_store (ledgerDir : string) (files : list string) (entries : list value)
    (d : directory) :
  snd (listLoop ledgerDir files entries d) = d.
Proof.
  revert entries. induction files as [|f files IH]; intros entries; [reflexivity |].
  cbn [listLoop]. unfold pbind. rewrite listOne_cases.
  destruct (readFile f d) as [[e|v]|]; try reflexivity. apply IH.
Qed.





(** X15.  [list] never writes: the directory is the one it was, however the
    command ends. *)
Theorem list_leaves_store (localeCompare : string -> string -> Z) (ledgerDir : string)
    (d : directory) :
  snd (listLedgerEntries localeCompare ledgerDir d) = d.
Proof.
  unfold listLedgerEntries, pbind, pure.
  pose proof (listLoop_store ledgerDir (filter (endsWith ".json") (map fst d)) [] d) as S.
  destruct (listLoop ledgerDir (filter (endsWith ".json") (map fst d)) [] d)
    as [[entries| |] d1]; exact S.
Qed.


